(** * Football Manager roster: player entity and HTTP handlers

    A shallow embedding of the player class of [backend/app/models.py], of
    the handlers of [backend/app/main.py], and of the two sibling variants
    of the player class ([backend/main.py], [playerObj.py]).

    Conventions of the embedding:
    - a Python [float] is an IEEE 754 binary64 number, the primitive [float]
      of Rocq: sums round, and there are infinities, two zeros and a NaN that
      compares false with everything;
    - a Python [str] is a [string] whose characters are the code points
      below 256;
    - a [Player] instance is an object in a store, addressed by its
      allocation number; the module-level list [players] holds addresses;
    - a method is a function from the receiver's fields to the receiver's
      new fields and either a returned value or a raised exception: an
      assignment made before a [raise] stays made. *)

From Stdlib Require Import Ascii String ZArith Floats.
From stdpp Require Import base list strings.

Local Open Scope string_scope.

(** ** Strings *)

Module Str.

(** [str.isspace] on one code point below 256. *)
Definition isspace (c : ascii) : bool :=
  let n := nat_of_ascii c in
  ((9 <=? n) && (n <=? 13) || (28 <=? n) && (n <=? 32)
   || (n =? 133) || (n =? 160))%nat.

Fixpoint lstrip (s : string) : string :=
  match s with
  | EmptyString => EmptyString
  | String c s' => if isspace c then lstrip s' else s
  end.

Fixpoint rstrip (s : string) : string :=
  match s with
  | EmptyString => EmptyString
  | String c s' =>
      match rstrip s' with
      | EmptyString => if isspace c then EmptyString else String c EmptyString
      | r => String c r
      end
  end.

(** [s.strip()] *)
Definition strip (s : string) : string := rstrip (lstrip s).

(** Truth value of a string: [not s] holds exactly for the empty string. *)
Definition truthy (s : string) : bool :=
  match s with EmptyString => false | _ => true end.

(** Every character is white space (the empty string included). *)
Fixpoint blank (s : string) : bool :=
  match s with
  | EmptyString => true
  | String c s' => isspace c && blank s'
  end.

Fixpoint starts_with (p s : string) : bool :=
  match p, s with
  | EmptyString, _ => true
  | String a p', String b s' => if Ascii.eqb a b then starts_with p' s' else false
  | String _ _, EmptyString => false
  end.

(** [sub in s] *)
Fixpoint contains (sub s : string) : bool :=
  starts_with sub s ||
  match s with
  | EmptyString => false
  | String _ s' => contains sub s'
  end.

(** [sep.join(l)] *)
Fixpoint join (sep : string) (l : list string) : string :=
  match l with
  | [] => ""
  | [x] => x
  | x :: l' => x ++ sep ++ join sep l'
  end.

End Str.

(** ** Exceptions and the state-and-exception monad *)

Inductive exn : Type :=
| ValueError (msg : string)
| TypeError (msg : string)
| IndexError (msg : string)
| SystemError (msg : string)
| HTTPException (status_code : Z) (detail : string).

(** [str(e)] *)
Definition str_exn (e : exn) : string :=
  match e with
  | ValueError m | TypeError m | IndexError m | SystemError m => m
  | HTTPException _ d => d
  end.

Inductive outcome (A : Type) : Type :=
| Return (a : A)
| Raise (e : exn).
Arguments Return {A} a.
Arguments Raise {A} e.

(** A computation over a mutable state [S]: the state it leaves, and what
    it returned or raised. *)
Definition SE (S A : Type) : Type := S -> S * outcome A.

Definition ret {S A} (a : A) : SE S A := fun s => (s, Return a).
Definition raise {S A} (e : exn) : SE S A := fun s => (s, Raise e).
Definition bind {S A B} (m : SE S A) (k : A -> SE S B) : SE S B :=
  fun s => match m s with
           | (s', Return a) => k a s'
           | (s', Raise e) => (s', Raise e)
           end.
Definition get {S} : SE S S := fun s => (s, Return s).
Definition put {S} (s' : S) : SE S unit := fun _ => (s', Return tt).
Definition modify {S} (f : S -> S) : SE S unit := fun s => (f s, Return tt).

(** [try: m  except ...: h e]: the handler [h] says which exceptions the
    clauses catch ([Some]) and what they run; the others propagate. *)
Definition try_except {S A} (m : SE S A) (h : exn -> option (SE S A)) : SE S A :=
  fun s => match m s with
           | (s', Return a) => (s', Return a)
           | (s', Raise e) =>
               match h e with
               | Some k => k s'
               | None => (s', Raise e)
               end
           end.

Declare Scope se_scope.
Delimit Scope se_scope with se.
Notation "x <- m ;; k" := (bind m (fun x => k))
  (at level 100, m at next level, k at level 200, right associativity) : se_scope.
Notation "m ;; k" := (bind m (fun _ => k))
  (at level 100, k at level 200, right associativity) : se_scope.
Local Open Scope se_scope.

(** ** The player class *)

Record Player : Type := mkPlayer {
  name : string;
  position : string;
  club : string;
  value : PrimFloat.float
}.

Definition set_club (c : string) (p : Player) : Player :=
  mkPlayer (name p) (position p) c (value p).
Definition set_value (v : PrimFloat.float) (p : Player) : Player :=
  mkPlayer (name p) (position p) (club p) v.

(** [VALID_POSITIONS = {'GK', 'DF', 'CM', 'FW'}] *)
Definition VALID_POSITIONS : list string := ["GK"; "DF"; "CM"; "FW"].

Definition in_valid_positions (s : string) : bool :=
  existsb (String.eqb s) VALID_POSITIONS.

(** The message of an invalid position joins the elements of the set in
    the order in which the running process iterates it. That order is not
    fixed by the program: it is the argument [order], some arrangement of
    the four elements, the same for the life of a process. *)
Definition invalid_position_msg (order : list string) : string :=
  "Invalid position. Must be one of: " ++ Str.join ", " order.

(** [float(x)] on a float: the float itself. *)
Definition float (x : PrimFloat.float) : PrimFloat.float := x.

(** [except (TypeError, ValueError)] *)
Definition is_Type_or_ValueError (e : exn) : bool :=
  match e with ValueError _ | TypeError _ => true | _ => false end.

(** [except ValueError] *)
Definition is_ValueError (e : exn) : bool :=
  match e with ValueError _ => true | _ => false end.

(** [Player.__init__], the same text in [backend/app/models.py],
    [backend/main.py] and [backend/vercel_app.py]: the fields of the fresh
    object, or an exception and no object. *)
Definition Player_init (order : list string) (name position club : string)
  (value : PrimFloat.float) : outcome Player :=
  if negb (Str.truthy name) || negb (Str.truthy position) || negb (Str.truthy club)
  then Raise (ValueError "Name, position, and club cannot be empty")
  else if (value <? 0)%float
  then Raise (ValueError "Player value cannot be negative")
  else if negb (in_valid_positions position)
  then Raise (ValueError (invalid_position_msg order))
  else Return (mkPlayer (Str.strip name) (Str.strip position) (Str.strip club)
                        (float value)).

(** [backend/app/models.py] *)
Module Models.

Definition inOrDecrisePlayerValue (amount : PrimFloat.float) : SE Player PrimFloat.float :=
  try_except
    (let amount := float amount in
     (if (amount <? 0)%float
      then let amount := PrimFloat.abs amount in
           modify (fun self => set_value (value self - amount)%float self)
      else modify (fun self => set_value (value self + amount)%float self)) ;;
     self <- get ;;
     ret (value self))
    (fun e => if is_Type_or_ValueError e
              then Some (raise (ValueError "Invalid amount format. Must be a number"))
              else None).

Definition setNewPlayerValue (newValue : PrimFloat.float) : SE Player PrimFloat.float :=
  try_except
    (let newValue := float newValue in
     (if (newValue <? 0)%float
      then raise (ValueError "Player value cannot be negative")
      else ret tt) ;;
     modify (set_value newValue) ;;
     self <- get ;;
     ret (value self))
    (fun e => if is_Type_or_ValueError e
              then Some (raise (ValueError "Invalid value format. Must be a number"))
              else None).

Definition setNewClub (newClub : string) (transferMoney : PrimFloat.float) : SE Player string :=
  (if negb (Str.truthy newClub) || negb (Str.truthy (Str.strip newClub))
   then raise (ValueError "New club cannot be empty")
   else ret tt) ;;
  try_except
    (let transferMoney := float transferMoney in
     (if (transferMoney <? 0)%float
      then raise (ValueError "Transfer money cannot be negative")
      else ret tt) ;;
     modify (set_club (Str.strip newClub)) ;;
     setNewPlayerValue transferMoney ;;
     self <- get ;;
     ret (club self))
    (fun e => if is_Type_or_ValueError e
              then Some (if Str.contains "Player value cannot be negative" (str_exn e)
                         then raise e
                         else raise (ValueError "Invalid transfer money format. Must be a number"))
              else None).

End Models.

(** [backend/main.py] and [backend/vercel_app.py]: [inOrDecrisePlayerValue]
    is the one of [Models]; there is no [setNewPlayerValue], and
    [setNewClub] assigns the fee. *)
Module Direct.

Definition setNewClub (newClub : string) (transferMoney : PrimFloat.float) : SE Player string :=
  (if negb (Str.truthy newClub) || negb (Str.truthy (Str.strip newClub))
   then raise (ValueError "New club cannot be empty")
   else ret tt) ;;
  try_except
    (let transferMoney := float transferMoney in
     (if (transferMoney <? 0)%float
      then raise (ValueError "Transfer money cannot be negative")
      else ret tt) ;;
     modify (set_club (Str.strip newClub)) ;;
     modify (set_value transferMoney) ;;
     self <- get ;;
     ret (club self))
    (fun e => if is_Type_or_ValueError e
              then Some (if Str.contains "Player value cannot be negative" (str_exn e)
                         then raise e
                         else raise (ValueError "Invalid transfer money format. Must be a number"))
              else None).

End Direct.

(** [playerObj.py], the terminal program; what it prints is left out. *)
Module Terminal.

Definition inOrDecrisePlayerValue (amount : PrimFloat.float) : SE Player unit :=
  if (amount <? 0)%float
  then let amount := PrimFloat.abs amount in
       modify (fun self => set_value (value self - amount)%float self)
  else modify (fun self => set_value (value self + amount)%float self).

Definition setNewPlayerValue (newValue : PrimFloat.float) : SE Player unit :=
  let newValue := PrimFloat.abs newValue in
  modify (set_value newValue).

Definition setNewClub (newClub : string) (transferMoney : PrimFloat.float) : SE Player unit :=
  modify (set_club newClub) ;;
  setNewPlayerValue transferMoney.

End Terminal.

(** ** The object store and the list [players] *)

(** Addresses of objects. *)
Abbreviation loc := nat.

Record world : Type := mkWorld {
  heap : list Player;     (* the objects, by address *)
  players : list loc      (* the module-level list *)
}.

(** The position a Python list of length [len] reads at index [i]: a
    negative index counts from the end. *)
Definition py_index (len : nat) (i : Z) : option nat :=
  if ((0 <=? i) && (i <? Z.of_nat len))%Z then Some (Z.to_nat i)
  else if ((i <? 0) && (0 <=? i + Z.of_nat len))%Z then Some (Z.to_nat (i + Z.of_nat len))
  else None.

(** [players[i]] *)
Definition players_getitem (i : Z) : SE world loc :=
  fun w => match py_index (length (players w)) i ≫= (players w !!.) with
           | Some l => (w, Return l)
           | None => (w, Raise (IndexError "list index out of range"))
           end.

(** [players.append(l)] *)
Definition players_append (l : loc) : SE world unit :=
  modify (fun w => mkWorld (heap w) (players w ++ [l])).

(** [players.pop(i)]: an empty list has its own message, whatever the
    index. *)
Definition players_pop (i : Z) : SE world loc :=
  fun w => match players w with
           | [] => (w, Raise (IndexError "pop from empty list"))
           | _ :: _ =>
               match py_index (length (players w)) i with
               | Some n =>
                   match players w !! n with
                   | Some l => (mkWorld (heap w) (delete n (players w)), Return l)
                   | None => (w, Raise (IndexError "pop index out of range"))
                   end
               | None => (w, Raise (IndexError "pop index out of range"))
               end
           end.

(** [Player(name, position, club, value)]: the constructor runs, and the
    object it filled gets the next address. *)
Definition new_Player (order : list string) (name position club : string)
  (value : PrimFloat.float) : SE world loc :=
  fun w => match Player_init order name position club value with
           | Return obj => (mkWorld (heap w ++ [obj]) (players w), Return (length (heap w)))
           | Raise e => (w, Raise e)
           end.

(** [obj.m(...)] for the object at address [l]. An address without an object
    does not arise in a well-formed store (see [well_formed]). *)
Definition call {A} (l : loc) (m : SE Player A) : SE world A :=
  fun w => match heap w !! l with
           | Some self =>
               match m self with
               | (self', r) => (mkWorld (<[l := self']> (heap w)) (players w), r)
               end
           | None => (w, Raise (SystemError "no object at this address"))
           end.

(** [[f(x) for x in l]] *)
Fixpoint for_each {S A B} (f : A -> SE S B) (l : list A) : SE S (list B) :=
  match l with
  | [] => ret []
  | x :: l' => y <- f x ;; ys <- for_each f l' ;; ret (y :: ys)
  end.

(** ** Request and response models *)

(** [PlayerBase]: the body of a creation request. *)
Module PlayerBase.
Record t : Type :=
  mk { name : string; position : string; club : string; value : PrimFloat.float }.

(** The declared constraints on the fields: [min_length=1], the literal
    type of the position, [ge=0]. *)
Definition valid (d : t) : bool :=
  (1 <=? String.length (name d))%nat && in_valid_positions (position d)
  && (1 <=? String.length (club d))%nat && (0 <=? value d)%float.
End PlayerBase.

(** The dictionary of [to_dict], with the keys of [PlayerResponse]. *)
Module PlayerResponse.
Record t : Type :=
  mk { name : string; position : string; club : string; value : PrimFloat.float }.
End PlayerResponse.

Definition to_dict : SE Player PlayerResponse.t :=
  self <- get ;;
  ret (PlayerResponse.mk (name self) (position self) (club self) (value self)).

(** ** The handlers of [backend/app/main.py] *)

Module Main.

Definition not_found : exn := HTTPException 404 "Player not found".

(** [if not 0 <= player_id < len(players): raise HTTPException(404, ...)] *)
Definition check_player_id (player_id : Z) : SE world unit :=
  w <- get ;;
  if negb ((0 <=? player_id) && (player_id <? Z.of_nat (length (players w))))%Z
  then raise not_found
  else ret tt.

(** [except ValueError as e: 400, str(e)]; [except Exception as e: 500, ...] *)
Definition on_error (prefix : string) (e : exn) : option (SE world PlayerResponse.t) :=
  if is_ValueError e
  then Some (raise (HTTPException 400 (str_exn e)))
  else Some (raise (HTTPException 500 (prefix ++ str_exn e))).

Definition unexpected : string := "An unexpected error occurred: ".

Definition get_players : SE world (list PlayerResponse.t) :=
  try_except
    (w <- get ;;
     for_each (fun player => call player to_dict) (players w))
    (fun e => Some (raise (HTTPException 500 (str_exn e)))).

Definition create_player (order : list string) (player_data : PlayerBase.t)
  : SE world PlayerResponse.t :=
  try_except
    (let value := float (PlayerBase.value player_data) in
     (if (value <? 0)%float
      then raise (ValueError "Player value cannot be negative")
      else ret tt) ;;
     new_player <- new_Player order (PlayerBase.name player_data)
                              (PlayerBase.position player_data)
                              (PlayerBase.club player_data) value ;;
     players_append new_player ;;
     call new_player to_dict)
    (on_error "").

Definition transfer_player (player_id : Z) (new_club : string) (transfer_money : PrimFloat.float)
  : SE world PlayerResponse.t :=
  check_player_id player_id ;;
  try_except
    (player <- players_getitem player_id ;;
     call player (Models.setNewClub new_club transfer_money) ;;
     player <- players_getitem player_id ;;
     call player to_dict)
    (on_error unexpected).

Definition update_player_value (player_id : Z) (amount : PrimFloat.float) : SE world PlayerResponse.t :=
  check_player_id player_id ;;
  try_except
    (player <- players_getitem player_id ;;
     call player (Models.inOrDecrisePlayerValue amount) ;;
     player <- players_getitem player_id ;;
     call player to_dict)
    (on_error unexpected).

Definition delete_player (player_id : Z) : SE world PlayerResponse.t :=
  check_player_id player_id ;;
  try_except
    (deleted_player <- players_pop player_id ;;
     call deleted_player to_dict)
    (fun e => Some (raise (HTTPException 500 (unexpected ++ str_exn e)))).

End Main.

(** The list [players] as the module body builds it; the numbers of the
    source are integers, which the constructor turns into these floats. *)
Definition initial : world :=
  mkWorld
    [ mkPlayer "Erling Haaland" "FW" "Manchester City" 180;
      mkPlayer "Jude Bellingham" "CM" "Real Madrid" 150;
      mkPlayer ("Kylian Mbapp" ++ String "233"%char "") "FW" "PSG" 180;
      mkPlayer "Vinicius Jr" "FW" "Real Madrid" 150;
      mkPlayer "Phil Foden" "CM" "Manchester City" 130 ]
    [0; 1; 2; 3; 4]%nat.

(** The requests of [backend/app/main.py] and the states they lead to. *)
Inductive request : Type :=
| GetPlayers
| CreatePlayer (player_data : PlayerBase.t)
| TransferPlayer (player_id : Z) (new_club : string) (transfer_money : PrimFloat.float)
| UpdatePlayerValue (player_id : Z) (amount : PrimFloat.float)
| DeletePlayer (player_id : Z).

Definition handle (order : list string) (r : request) (w : world) : world :=
  match r with
  | GetPlayers => fst (Main.get_players w)
  | CreatePlayer d => fst (Main.create_player order d w)
  | TransferPlayer i c m => fst (Main.transfer_player i c m w)
  | UpdatePlayerValue i a => fst (Main.update_player_value i a w)
  | DeletePlayer i => fst (Main.delete_player i w)
  end.

Inductive reachable (order : list string) : world -> Prop :=
| reachable_initial : reachable order initial
| reachable_handle r w :
    reachable order w -> reachable order (handle order r w).

(** ** Observations on a state *)

(** The record at position [n] of the roster. *)
Definition entry (w : world) (n : nat) : option Player :=
  players w !! n ≫= (heap w !!.).

(** The records of the roster, in the order of [players]. *)
Definition roster (w : world) : list Player :=
  omap (heap w !!.) (players w).

(** No object is listed twice, and every listed address has an object. *)
Definition well_formed (w : world) : Prop :=
  NoDup (players w) /\ Forall (fun l => (l < length (heap w))%nat) (players w).

Definition nonneg_values (w : world) : Prop :=
  Forall (fun p => (0 <=? value p)%float = true) (roster w).

Definition dict_of (p : Player) : PlayerResponse.t :=
  PlayerResponse.mk (name p) (position p) (club p) (value p).

Definition in_range (w : world) (i : Z) : Prop :=
  (0 <= i < Z.of_nat (length (players w)))%Z.

(** [w'] has the list [players] of [w] and the same record at every
    position but [n]; the records at [n] are related by [keep]. *)
Definition frame (keep : Player -> Player -> Prop) (n : nat) (w w' : world) : Prop :=
  players w' = players w /\
  (forall j, j <> n -> entry w' j = entry w j) /\
  exists p p', entry w n = Some p /\ entry w' n = Some p' /\ keep p p'.

Definition keeps_name_position (p p' : Player) : Prop :=
  name p' = name p /\ position p' = position p.

Definition keeps_name_position_club (p p' : Player) : Prop :=
  name p' = name p /\ position p' = position p /\ club p' = club p.

(** A roster of one player. *)
Definition single (p : Player) : world := mkWorld [p] [0%nat].

Definition haaland (v : PrimFloat.float) : Player :=
  mkPlayer "Erling Haaland" "FW" "Manchester City" v.

(** ** The handlers of [backend/main.py]

    The class of that file has the [setNewClub] of [Direct]; its
    [create_player] passes the value of the request to the constructor
    without a test of its own. [get_players] and [delete_player] have the text
    of [Main]. [backend/vercel_app.py] has this [transfer_player] and the
    [create_player] of [Main]. *)
Module Api.

Definition create_player (order : list string) (player_data : PlayerBase.t)
  : SE world PlayerResponse.t :=
  try_except
    (new_player <- new_Player order (PlayerBase.name player_data)
                              (PlayerBase.position player_data)
                              (PlayerBase.club player_data)
                              (PlayerBase.value player_data) ;;
     players_append new_player ;;
     call new_player to_dict)
    (Main.on_error "").

Definition transfer_player (player_id : Z) (new_club : string) (transfer_money : PrimFloat.float)
  : SE world PlayerResponse.t :=
  Main.check_player_id player_id ;;
  try_except
    (player <- players_getitem player_id ;;
     call player (Direct.setNewClub new_club transfer_money) ;;
     player <- players_getitem player_id ;;
     call player to_dict)
    (Main.on_error Main.unexpected).

End Api.

(** ** The status of a response of [backend/app/main.py]

    The status code of the decorator when the handler returns, the code of
    an [HTTPException] it raises, and 500 from [global_exception_handler]
    for any other exception. *)
Definition status {A} (success : Z) (o : outcome A) : Z :=
  match o with
  | Return _ => success
  | Raise (HTTPException code _) => code
  | Raise _ => 500
  end.

Definition respond (order : list string) (r : request) (w : world) : Z :=
  match r with
  | GetPlayers => status 200 (snd (Main.get_players w))
  | CreatePlayer d => status 201 (snd (Main.create_player order d w))
  | TransferPlayer i c m => status 200 (snd (Main.transfer_player i c m w))
  | UpdatePlayerValue i a => status 200 (snd (Main.update_player_value i a w))
  | DeletePlayer i => status 200 (snd (Main.delete_player i w))
  end.

(** ** The menu of [playerObj.py]

    The bodies of the options that transfer and remove a player, with the
    numbers read from the terminal as arguments; what the program prints is
    left out. Neither reads the value of a player. An exception is not
    caught: it ends the program. *)
Module TerminalMenu.

Definition option_2 (player_index : Z) (new_club : string) (transfer_money : PrimFloat.float)
  : SE world unit :=
  player <- players_getitem player_index ;;
  call player (Terminal.setNewClub new_club transfer_money).

Definition option_4 (playerIndex : Z) : SE world unit :=
  players_pop playerIndex ;;
  ret tt.

End TerminalMenu.

(** ** Conditions on a record *)

(** The position is one of the four. *)
Definition valid_position (p : Player) : Prop :=
  in_valid_positions (position p) = true.

(** No text field has white space at either end. *)
Definition stripped (p : Player) : Prop :=
  Str.strip (name p) = name p /\ Str.strip (position p) = position p
  /\ Str.strip (club p) = club p.

(** Closed instances of the two conditions on a store, by evaluation. *)
Ltac well_formed_by_evaluation :=
  split; [by apply (bool_decide_unpack _) | by repeat constructor].


(** * Properties *)

(** ** Strings: what [strip] leaves of a blank string *)

Section StripBlank.

Lemma lstrip_empty_iff s : Str.lstrip s = "" <-> Str.blank s = true.
Proof.
  induction s as [|c s IH]; simpl; [done|].
  destruct (Str.isspace c); simpl; [exact IH|].
  split; discriminate.
Qed.

Lemma rstrip_empty_iff s : Str.rstrip s = "" <-> Str.blank s = true.
Proof.
  induction s as [|c s IH]; simpl; [done|].
  destruct (Str.rstrip s) as [|c' r] eqn:E.
  - destruct (Str.isspace c); simpl.
    + split; [intros _; by apply IH | done].
    + split; discriminate.
  - split; [discriminate|].
    intros [_ Hb]%andb_prop. apply IH in Hb. discriminate.
Qed.

Lemma blank_lstrip s : Str.blank (Str.lstrip s) = Str.blank s.
Proof.
  induction s as [|c s IH]; simpl; [done|].
  destruct (Str.isspace c) eqn:E; simpl; [exact IH|].
  by rewrite E.
Qed.

Lemma strip_empty_iff s : Str.strip s = "" <-> Str.blank s = true.
Proof. unfold Str.strip. by rewrite rstrip_empty_iff, blank_lstrip. Qed.

(** The guard [not s or not s.strip()] is the test for a blank string. *)
Lemma blank_guard s :
  negb (Str.truthy s) || negb (Str.truthy (Str.strip s)) = Str.blank s.
Proof.
  destruct (Str.blank s) eqn:E.
  - apply strip_empty_iff in E. rewrite E. simpl. by rewrite orb_true_r.
  - destruct s as [|c s]; [done|]. simpl Str.truthy at 1. simpl.
    destruct (Str.strip (String c s)) eqn:E'; [|done].
    apply strip_empty_iff in E'. congruence.
Qed.

End StripBlank.

(** ** Floats: order against zero *)

Section FloatOrder.

Implicit Types x y : PrimFloat.float.

Lemma leb_zero_not_ltb x : (0 <=? x)%float = true -> (x <? 0)%float = false.
Proof.
  rewrite leb_spec, ltb_spec.
  destruct (Prim2SF x) as [s|s| |s m e]; try destruct s; cbv; congruence.
Qed.

Lemma ltb_zero_not_leb x : (x <? 0)%float = true -> (0 <=? x)%float = false.
Proof.
  rewrite leb_spec, ltb_spec.
  destruct (Prim2SF x) as [s|s| |s m e]; try destruct s; cbv; congruence.
Qed.

(** A float of zero or more is equal, as a number, to its absolute value;
    the two differ in the sign of a zero only. *)
Lemma abs_nonneg_eqb x :
  (0 <=? x)%float = true -> (PrimFloat.abs x =? x)%float = true.
Proof.
  rewrite leb_spec, FloatAxioms.eqb_spec, abs_spec.
  destruct (Prim2SF x) as [s|s| |s m e]; try destruct s; try (cbv; congruence).
  intros _. unfold SFabs, SFeqb, SFcompare.
  by rewrite Z.compare_refl, Pos.compare_cont_refl.
Qed.







End FloatOrder.

(** ** The methods of the player class *)

Section Methods.

Implicit Types (p : Player) (v amount fee : PrimFloat.float) (c : string).

Lemma inOrDecrisePlayerValue_neg amount p :
  (amount <? 0)%float = true ->
  Models.inOrDecrisePlayerValue amount p
  = (set_value (value p - PrimFloat.abs amount) p,
     Return (value p - PrimFloat.abs amount)%float).
Proof.
  intros H. unfold Models.inOrDecrisePlayerValue, try_except, bind, float.
  by rewrite H.
Qed.

Lemma inOrDecrisePlayerValue_not_neg amount p :
  (amount <? 0)%float = false ->
  Models.inOrDecrisePlayerValue amount p
  = (set_value (value p + amount) p, Return (value p + amount)%float).
Proof.
  intros H. unfold Models.inOrDecrisePlayerValue, try_except, bind, float.
  by rewrite H.
Qed.

Lemma setNewPlayerValue_not_neg v p :
  (v <? 0)%float = false ->
  Models.setNewPlayerValue v p = (set_value v p, Return v).
Proof.
  intros H. unfold Models.setNewPlayerValue, try_except, bind, float.
  by rewrite H.
Qed.

Lemma setNewPlayerValue_neg v p :
  (v <? 0)%float = true ->
  Models.setNewPlayerValue v p
  = (p, Raise (ValueError "Invalid value format. Must be a number")).
Proof.
  intros H. unfold Models.setNewPlayerValue, try_except, bind, float.
  by rewrite H.
Qed.

Lemma setNewClub_valid c fee p :
  Str.blank c = false -> (fee <? 0)%float = false ->
  Models.setNewClub c fee p
  = (mkPlayer (name p) (position p) (Str.strip c) fee, Return (Str.strip c)).
Proof.
  intros Hc Hfee. unfold Models.setNewClub.
  rewrite blank_guard, Hc. unfold bind at 1. simpl.
  unfold try_except, bind, float. rewrite Hfee. simpl.
  by rewrite setNewPlayerValue_not_neg.
Qed.

Lemma setNewClub_blank c fee p :
  Str.blank c = true ->
  Models.setNewClub c fee p = (p, Raise (ValueError "New club cannot be empty")).
Proof.
  intros Hc. unfold Models.setNewClub. rewrite blank_guard, Hc. done.
Qed.

Lemma setNewClub_negative c fee p :
  Str.blank c = false -> (fee <? 0)%float = true ->
  Models.setNewClub c fee p
  = (p, Raise (ValueError "Invalid transfer money format. Must be a number")).
Proof.
  intros Hc Hfee. unfold Models.setNewClub.
  rewrite blank_guard, Hc. unfold bind at 1. simpl.
  unfold try_except, bind, float. by rewrite Hfee.
Qed.

(** The two texts of [setNewClub] compute the same thing. *)
Lemma setNewClub_direct_nested c fee p :
  Direct.setNewClub c fee p = Models.setNewClub c fee p.
Proof.
  destruct (Str.blank c) eqn:Hc.
  - rewrite setNewClub_blank by done.
    unfold Direct.setNewClub. by rewrite blank_guard, Hc.
  - destruct (fee <? 0)%float eqn:Hfee.
    + rewrite setNewClub_negative by done.
      unfold Direct.setNewClub. rewrite blank_guard, Hc. unfold bind at 1. simpl.
      unfold try_except, bind, float. by rewrite Hfee.
    + rewrite setNewClub_valid by done.
      unfold Direct.setNewClub. rewrite blank_guard, Hc. unfold bind at 1. simpl.
      unfold try_except, bind, float. by rewrite Hfee.
Qed.

End Methods.

(** ** The store: indexing, calls, and the shape of an indexed handler *)

Section Store.

Implicit Types (w : world) (i : Z) (n : nat) (l : loc) (p : Player).

Lemma py_index_in_range len i :
  (0 <= i < Z.of_nat len)%Z -> py_index len i = Some (Z.to_nat i).
Proof.
  intros [H0 H1]. unfold py_index.
  apply Z.leb_le in H0. apply Z.ltb_lt in H1. by rewrite H0, H1.
Qed.

Lemma py_index_negative len i :
  (- Z.of_nat len <= i < 0)%Z ->
  py_index len i = Some (Z.to_nat (i + Z.of_nat len)).
Proof.
  intros Hi. unfold py_index.
  destruct (0 <=? i)%Z eqn:E0; [apply Z.leb_le in E0; lia|].
  destruct (i <? 0)%Z eqn:E1; [|apply Z.ltb_ge in E1; lia].
  destruct (0 <=? i + Z.of_nat len)%Z eqn:E2; [done|].
  apply Z.leb_gt in E2. lia.
Qed.

Lemma py_index_outside len i :
  (i < - Z.of_nat len \/ Z.of_nat len <= i)%Z -> py_index len i = None.
Proof.
  intros Hi. unfold py_index.
  destruct (0 <=? i)%Z eqn:E0.
  - apply Z.leb_le in E0.
    destruct (i <? Z.of_nat len)%Z eqn:E1; [apply Z.ltb_lt in E1; lia|].
    destruct (i <? 0)%Z eqn:E2; [apply Z.ltb_lt in E2; lia|]. done.
  - apply Z.leb_gt in E0.
    destruct (i <? 0)%Z eqn:E1; [|done].
    destruct (0 <=? i + Z.of_nat len)%Z eqn:E2; [|done].
    apply Z.leb_le in E2. lia.
Qed.

Lemma in_range_lookup w i :
  in_range w i -> is_Some (players w !! Z.to_nat i).
Proof. intros [H0 H1]. apply lookup_lt_is_Some. lia. Qed.

Lemma check_player_id_ok w i :
  in_range w i -> Main.check_player_id i w = (w, Return tt).
Proof.
  intros [H0 H1]. unfold Main.check_player_id, bind, get.
  apply Z.leb_le in H0. apply Z.ltb_lt in H1. by rewrite H0, H1.
Qed.

Lemma check_player_id_fail w i :
  ~ in_range w i -> Main.check_player_id i w = (w, Raise Main.not_found).
Proof.
  intros H. unfold Main.check_player_id, bind, get.
  destruct (0 <=? i)%Z eqn:H0; [|done].
  destruct (i <? Z.of_nat (length (players w)))%Z eqn:H1; [|done].
  apply Z.leb_le in H0. apply Z.ltb_lt in H1. by destruct H.
Qed.

Lemma players_getitem_ok w i l :
  in_range w i -> players w !! Z.to_nat i = Some l ->
  players_getitem i w = (w, Return l).
Proof.
  intros Hi Hl. unfold players_getitem.
  rewrite py_index_in_range by exact Hi. simpl. by rewrite Hl.
Qed.

Lemma call_ok {A} (m : SE Player A) w l p :
  heap w !! l = Some p ->
  call l m w = (mkWorld (<[l := fst (m p)]> (heap w)) (players w), snd (m p)).
Proof. intros H. unfold call. rewrite H. by destruct (m p). Qed.

Lemma call_to_dict w l p :
  heap w !! l = Some p -> call l to_dict w = (w, Return (dict_of p)).
Proof.
  intros H. rewrite (call_ok to_dict w l p H). simpl.
  rewrite list_insert_id by exact H. by destruct w.
Qed.

(** What the handlers of the form
    [check; try: players[i].m(...); return players[i].to_dict()] do on an
    index in range: the method runs on the object at [i], a returned value
    is replaced by the dictionary of the object, a raised exception by the
    HTTP error of its class. *)
Lemma indexed_method_call {A} (m : SE Player A) w i l p :
  in_range w i -> players w !! Z.to_nat i = Some l -> heap w !! l = Some p ->
  (Main.check_player_id i ;;
   try_except
     (player <- players_getitem i ;;
      call player m ;;
      player <- players_getitem i ;;
      call player to_dict)
     (Main.on_error Main.unexpected)) w
  = (mkWorld (<[l := fst (m p)]> (heap w)) (players w),
     match snd (m p) with
     | Return _ => Return (dict_of (fst (m p)))
     | Raise e =>
         Raise (if is_ValueError e then HTTPException 400 (str_exn e)
                else HTTPException 500 (Main.unexpected ++ str_exn e))
     end).
Proof.
  intros Hi Hl Hp. unfold bind at 1. rewrite check_player_id_ok by exact Hi.
  unfold try_except, bind.
  rewrite (players_getitem_ok w i l Hi Hl), (call_ok m w l p Hp).
  destruct (m p) as [p' [a|e]]; simpl.
  - set (w' := mkWorld _ _).
    assert (Hp' : heap w' !! l = Some p').
    { apply list_lookup_insert_eq. by eapply lookup_lt_Some. }
    rewrite (players_getitem_ok w' i l Hi Hl), (call_to_dict w' l p' Hp'). done.
  - unfold Main.on_error. by destruct (is_ValueError e).
Qed.

Lemma transfer_player_in_range w i c fee l p :
  in_range w i -> players w !! Z.to_nat i = Some l -> heap w !! l = Some p ->
  Main.transfer_player i c fee w
  = (mkWorld (<[l := fst (Models.setNewClub c fee p)]> (heap w)) (players w),
     match snd (Models.setNewClub c fee p) with
     | Return _ => Return (dict_of (fst (Models.setNewClub c fee p)))
     | Raise e =>
         Raise (if is_ValueError e then HTTPException 400 (str_exn e)
                else HTTPException 500 (Main.unexpected ++ str_exn e))
     end).
Proof. apply indexed_method_call. Qed.

Lemma update_player_value_in_range w i amount l p :
  in_range w i -> players w !! Z.to_nat i = Some l -> heap w !! l = Some p ->
  Main.update_player_value i amount w
  = (mkWorld (<[l := fst (Models.inOrDecrisePlayerValue amount p)]> (heap w))
             (players w),
     match snd (Models.inOrDecrisePlayerValue amount p) with
     | Return _ => Return (dict_of (fst (Models.inOrDecrisePlayerValue amount p)))
     | Raise e =>
         Raise (if is_ValueError e then HTTPException 400 (str_exn e)
                else HTTPException 500 (Main.unexpected ++ str_exn e))
     end).
Proof. apply indexed_method_call. Qed.

Lemma players_pop_ok w i n l :
  py_index (length (players w)) i = Some n -> players w !! n = Some l ->
  players_pop i w = (mkWorld (heap w) (delete n (players w)), Return l).
Proof.
  intros Hn Hl. unfold players_pop. rewrite Hn, Hl.
  destruct (players w) eqn:E; [|done]. rewrite ?E in Hl. done.
Qed.

Lemma delete_player_in_range w i l p :
  in_range w i -> players w !! Z.to_nat i = Some l -> heap w !! l = Some p ->
  Main.delete_player i w
  = (mkWorld (heap w) (delete (Z.to_nat i) (players w)), Return (dict_of p)).
Proof.
  intros Hi Hl Hp. unfold Main.delete_player, bind at 1.
  rewrite check_player_id_ok by exact Hi.
  unfold try_except, bind.
  rewrite (players_pop_ok w i _ l (py_index_in_range _ _ Hi) Hl).
  set (w' := mkWorld _ _).
  by rewrite (call_to_dict w' l p Hp).
Qed.

(** Out of range, the three indexed handlers stop at the check. *)
Lemma transfer_player_out_of_range w i c fee :
  ~ in_range w i -> Main.transfer_player i c fee w = (w, Raise Main.not_found).
Proof.
  intros H. unfold Main.transfer_player, bind at 1.
  by rewrite check_player_id_fail.
Qed.

Lemma update_player_value_out_of_range w i amount :
  ~ in_range w i -> Main.update_player_value i amount w = (w, Raise Main.not_found).
Proof.
  intros H. unfold Main.update_player_value, bind at 1.
  by rewrite check_player_id_fail.
Qed.

Lemma delete_player_out_of_range w i :
  ~ in_range w i -> Main.delete_player i w = (w, Raise Main.not_found).
Proof.
  intros H. unfold Main.delete_player, bind at 1.
  by rewrite check_player_id_fail.
Qed.

(** A call depends on the method only through what the method does. *)
Lemma call_ext {A} (m1 m2 : SE Player A) l w :
  (forall p, m1 p = m2 p) -> call l m1 w = call l m2 w.
Proof. intros H. unfold call. destruct (heap w !! l); [|done]. by rewrite H. Qed.

(** [transfer_player] over the [setNewClub] that assigns the fee is
    [transfer_player] over the one that calls [setNewPlayerValue]. *)
Lemma transfer_player_direct_nested w i c fee :
  Api.transfer_player i c fee w = Main.transfer_player i c fee w.
Proof.
  unfold Api.transfer_player, Main.transfer_player, bind, try_except.
  destruct (Main.check_player_id i w) as [w1 [[]|e]]; [|done].
  destruct (players_getitem i w1) as [w2 [l|e]]; [|done].
  rewrite (call_ext (Direct.setNewClub c fee) (Models.setNewClub c fee) l w2);
    [done|].
  intros p. apply setNewClub_direct_nested.
Qed.

End Store.

(** ** Creation and listing *)

Section CreateList.

Implicit Types (w : world) (d : PlayerBase.t) (p : Player) (order : list string).

Lemma Player_init_cases order n pos c v :
  (n <> "" /\ c <> "" /\ in_valid_positions pos = true /\ (v <? 0)%float = false /\
   Player_init order n pos c v
   = Return (mkPlayer (Str.strip n) (Str.strip pos) (Str.strip c) v))
  \/ ((n = "" \/ c = "" \/ in_valid_positions pos = false \/ (v <? 0)%float = true) /\
      exists msg, Player_init order n pos c v = Raise (ValueError msg)).
Proof.
  unfold Player_init, float.
  destruct n as [|a n]; [right; split; [by left | by eexists]|].
  destruct pos as [|b pos]; [right; split; [by right; right; left | by eexists]|].
  destruct c as [|c0 c]; [right; split; [by right; left | by eexists]|].
  simpl negb at 1 2 3. simpl orb.
  destruct (v <? 0)%float eqn:Hv;
    [right; split; [by right; right; right | by eexists]|].
  destruct (in_valid_positions (String b pos)) eqn:E; simpl.
  - left. by repeat split.
  - right. split; [by right; right; left | by eexists].
Qed.

Lemma create_player_accepts order d w p :
  (PlayerBase.value d <? 0)%float = false ->
  Player_init order (PlayerBase.name d) (PlayerBase.position d)
              (PlayerBase.club d) (PlayerBase.value d) = Return p ->
  Main.create_player order d w
  = (mkWorld (heap w ++ [p]) (players w ++ [length (heap w)]), Return (dict_of p)).
Proof.
  intros Hv Hp. unfold Main.create_player, try_except, bind, float.
  rewrite Hv. simpl.
  unfold new_Player. rewrite Hp. simpl.
  set (w' := mkWorld _ _).
  assert (Hl : heap w' !! length (heap w) = Some p).
  { simpl. rewrite lookup_app_r by lia. by rewrite Nat.sub_diag. }
  by rewrite (call_to_dict w' _ p Hl).
Qed.

Lemma create_player_rejects order d w :
  PlayerBase.name d = "" \/ PlayerBase.club d = ""
  \/ in_valid_positions (PlayerBase.position d) = false
  \/ (PlayerBase.value d <? 0)%float = true ->
  exists msg, Main.create_player order d w = (w, Raise (HTTPException 400 msg)).
Proof.
  intros H. unfold Main.create_player, try_except, bind, float.
  destruct (PlayerBase.value d <? 0)%float eqn:Hv; simpl; [by eexists|].
  unfold new_Player.
  destruct (Player_init_cases order (PlayerBase.name d) (PlayerBase.position d)
              (PlayerBase.club d) (PlayerBase.value d))
    as [(Hn & Hc & Hpos & _ & _) | [_ [msg ->]]].
  - destruct H as [?|[?|[?|?]]]; [done | done | congruence | congruence].
  - simpl. by eexists.
Qed.

(** Every creation either appends the constructed player or fails with
    status 400 and changes nothing. *)
Lemma create_player_cases order d w :
  (exists p,
      Player_init order (PlayerBase.name d) (PlayerBase.position d)
                  (PlayerBase.club d) (PlayerBase.value d) = Return p /\
      Main.create_player order d w
      = (mkWorld (heap w ++ [p]) (players w ++ [length (heap w)]),
         Return (dict_of p)))
  \/ (exists msg,
         Main.create_player order d w = (w, Raise (HTTPException 400 msg))).
Proof.
  destruct (Player_init_cases order (PlayerBase.name d) (PlayerBase.position d)
              (PlayerBase.club d) (PlayerBase.value d))
    as [(_ & _ & _ & Hv & Hp) | [H _]].
  - left. eexists. split; [exact Hp|]. by apply create_player_accepts.
  - right. by apply create_player_rejects.
Qed.

Lemma for_each_to_dict w (ls : list loc) :
  Forall (fun l => (l < length (heap w))%nat) ls ->
  for_each (fun player => call player to_dict) ls w
  = (w, Return (dict_of <$> omap (heap w !!.) ls)).
Proof.
  induction 1 as [|l ls Hl _ IH]; [done|].
  apply lookup_lt_is_Some in Hl as [p Hp].
  simpl. rewrite Hp. unfold bind at 1. rewrite (call_to_dict w l p Hp).
  unfold bind at 1. by rewrite IH.
Qed.

Lemma get_players_spec w :
  well_formed w ->
  Main.get_players w = (w, Return (dict_of <$> roster w)).
Proof.
  intros [_ Hw]. unfold Main.get_players, try_except, bind, get.
  by rewrite for_each_to_dict.
Qed.

End CreateList.
(** ** Well-formed stores *)

Section WellFormed.

Implicit Types (w : world) (i : Z) (l : loc) (p : Player) (order : list string).

Lemma initial_well_formed : well_formed initial.
Proof.
  split; [|by repeat constructor].
  by apply (bool_decide_unpack _).
Qed.

Lemma well_formed_entry w i :
  well_formed w -> in_range w i ->
  exists l p, players w !! Z.to_nat i = Some l /\ heap w !! l = Some p.
Proof.
  intros [_ Hw] Hi. destruct (in_range_lookup w i Hi) as [l Hl].
  assert (Hlt : (l < length (heap w))%nat).
  { eapply Forall_lookup_1 in Hw; [exact Hw | exact Hl]. }
  apply lookup_lt_is_Some in Hlt as [p Hp]. eauto.
Qed.

Lemma well_formed_insert w l p :
  well_formed w -> well_formed (mkWorld (<[l := p]> (heap w)) (players w)).
Proof. intros [H1 H2]. split; [done|]. simpl. by rewrite length_insert. Qed.

Lemma well_formed_delete w n :
  well_formed w -> well_formed (mkWorld (heap w) (delete n (players w))).
Proof.
  intros [H1 H2]. split; simpl.
  - eapply sublist_NoDup; [exact H1 | apply sublist_delete].
  - rewrite delete_take_drop. apply Forall_app.
    split; [by apply Forall_take | by apply Forall_drop].
Qed.

Lemma well_formed_append w p :
  well_formed w ->
  well_formed (mkWorld (heap w ++ [p]) (players w ++ [length (heap w)])).
Proof.
  intros [H1 H2]. split; simpl.
  - apply NoDup_app. split; [done|]. split; [|apply NoDup_singleton].
    intros l Hl ->%list_elem_of_singleton.
    rewrite Forall_forall in H2. apply H2 in Hl. lia.
  - rewrite length_app. simpl. apply Forall_app. split.
    + eapply Forall_impl; [exact H2|]. simpl. lia.
    + apply Forall_singleton. lia.
Qed.

Lemma in_range_cases w i : in_range w i \/ ~ in_range w i.
Proof.
  unfold in_range.
  destruct (decide (0 <= i < Z.of_nat (length (players w)))%Z); [by left | by right].
Qed.

(** Every handler keeps the store well formed. *)
Lemma handle_well_formed order r w :
  well_formed w -> well_formed (handle order r w).
Proof.
  intros Hw. destruct r as [|d|i c m|i a|i]; simpl.
  - by rewrite get_players_spec.
  - destruct (create_player_cases order d w) as [(p & _ & ->)|[msg ->]]; [|done].
    by apply well_formed_append.
  - destruct (in_range_cases w i) as [Hi|Hi].
    + destruct (well_formed_entry w i Hw Hi) as (l & p & Hl & Hp).
      rewrite (transfer_player_in_range w i c m l p Hi Hl Hp).
      by apply well_formed_insert.
    + by rewrite transfer_player_out_of_range.
  - destruct (in_range_cases w i) as [Hi|Hi].
    + destruct (well_formed_entry w i Hw Hi) as (l & p & Hl & Hp).
      rewrite (update_player_value_in_range w i a l p Hi Hl Hp).
      by apply well_formed_insert.
    + by rewrite update_player_value_out_of_range.
  - destruct (in_range_cases w i) as [Hi|Hi].
    + destruct (well_formed_entry w i Hw Hi) as (l & p & Hl & Hp).
      rewrite (delete_player_in_range w i l p Hi Hl Hp).
      by apply well_formed_delete.
    + by rewrite delete_player_out_of_range.
Qed.

Lemma reachable_well_formed order w : reachable order w -> well_formed w.
Proof.
  induction 1 as [|r w _ IH]; [apply initial_well_formed|].
  by apply handle_well_formed.
Qed.

(** In a well-formed store the roster reads position by position. *)
Lemma roster_lookup w n : well_formed w -> roster w !! n = entry w n.
Proof.
  intros [_ Hw]. unfold roster, entry. revert n.
  induction Hw as [|l ls Hl _ IH]; intros n; [done|].
  apply lookup_lt_is_Some in Hl as [p Hp]. simpl. rewrite Hp.
  destruct n as [|n]; simpl; [done | apply IH].
Qed.

End WellFormed.

(** ** Records of the roster under updates of the store *)

Section Entries.

Implicit Types (w : world) (n j : nat) (l : loc) (p : Player).

Lemma entry_Some w n p :
  entry w n = Some p <->
  exists l, players w !! n = Some l /\ heap w !! l = Some p.
Proof.
  unfold entry. destruct (players w !! n) as [l|]; simpl.
  - split; [eauto | by intros (? & [= <-] & ?)].
  - split; [done | by intros (? & ? & ?)].
Qed.

Lemma entry_insert_eq w n l p p' :
  players w !! n = Some l -> heap w !! l = Some p ->
  entry (mkWorld (<[l := p']> (heap w)) (players w)) n = Some p'.
Proof.
  intros Hl Hp. unfold entry. simpl. rewrite Hl. simpl.
  apply list_lookup_insert_eq. by eapply lookup_lt_Some.
Qed.

Lemma entry_insert_ne w n j l p' :
  NoDup (players w) -> players w !! n = Some l -> j <> n ->
  entry (mkWorld (<[l := p']> (heap w)) (players w)) j = entry w j.
Proof.
  intros Hnd Hl Hj. unfold entry. simpl.
  destruct (players w !! j) as [l'|] eqn:Hl'; simpl; [|done].
  apply list_lookup_insert_ne. intros ->.
  apply Hj. by eapply NoDup_lookup.
Qed.

Lemma entry_insert_same w l p :
  heap w !! l = Some p -> mkWorld (<[l := p]> (heap w)) (players w) = w.
Proof. intros H. rewrite list_insert_id by exact H. by destruct w. Qed.

Lemma frame_insert (keep : Player -> Player -> Prop) w n l p p' :
  NoDup (players w) -> players w !! n = Some l -> heap w !! l = Some p ->
  keep p p' ->
  frame keep n w (mkWorld (<[l := p']> (heap w)) (players w)).
Proof.
  intros Hnd Hl Hp Hk. split; [done|]. split.
  - intros j Hj. by eapply entry_insert_ne.
  - exists p, p'. split; [apply entry_Some; eauto|].
    split; [by eapply entry_insert_eq | done].
Qed.

Lemma roster_length w : well_formed w -> length (roster w) = length (players w).
Proof.
  intros [_ Hw]. unfold roster.
  induction Hw as [|l ls Hl _ IH]; [done|].
  apply lookup_lt_is_Some in Hl as [p Hp]. simpl. rewrite Hp. simpl.
  f_equal. exact IH.
Qed.

Lemma omap_lookup_app (h k : list Player) (ls : list nat) :
  Forall (fun l => (l < length h)%nat) ls ->
  omap ((h ++ k)%list !!.) ls = omap (h !!.) ls.
Proof.
  induction 1 as [|l ls Hl _ IH]; [done|].
  simpl. rewrite lookup_app_l by exact Hl.
  destruct (h !! l); [f_equal|]; exact IH.
Qed.

Lemma roster_append w p :
  well_formed w ->
  roster (mkWorld (heap w ++ [p]) (players w ++ [length (heap w)]))
  = (roster w ++ [p])%list.
Proof.
  intros [_ Hw]. unfold roster. simpl.
  rewrite omap_app, omap_lookup_app by exact Hw. f_equal.
  simpl. rewrite lookup_app_r by lia. by rewrite Nat.sub_diag.
Qed.

Lemma not_elem_of_delete (ls : list nat) n l :
  NoDup ls -> ls !! n = Some l -> l ∉ delete n ls.
Proof.
  intros Hnd Hl. rewrite delete_take_drop.
  rewrite <- (take_drop_middle ls n l Hl) in Hnd.
  apply NoDup_app in Hnd as (_ & Hleft & Hright).
  apply NoDup_cons in Hright as [Hright _].
  intros [Hin|Hin]%elem_of_app; [|done].
  apply (Hleft l Hin). by left.
Qed.


Lemma nonneg_values_delete w n :
  nonneg_values w -> nonneg_values (mkWorld (heap w) (delete n (players w))).
Proof.
  unfold nonneg_values, roster. rewrite !Forall_forall. simpl.
  intros Hw q (l' & Hl' & Hq)%list_elem_of_omap.
  apply Hw, list_elem_of_omap. exists l'. split; [|done].
  eapply elem_of_sublist; [exact Hl' | apply sublist_delete].
Qed.


End Entries.

(** ** What the methods leave alone *)

Section MethodFrames.

Implicit Types (p : Player) (v amount fee : PrimFloat.float) (c : string).

Lemma inOrDecrisePlayerValue_keeps amount p :
  keeps_name_position_club p (fst (Models.inOrDecrisePlayerValue amount p)).
Proof.
  destruct (amount <? 0)%float eqn:H.
  - by rewrite inOrDecrisePlayerValue_neg.
  - by rewrite inOrDecrisePlayerValue_not_neg.
Qed.

Lemma setNewPlayerValue_keeps v p :
  keeps_name_position_club p (fst (Models.setNewPlayerValue v p)).
Proof.
  destruct (v <? 0)%float eqn:H.
  - by rewrite setNewPlayerValue_neg.
  - by rewrite setNewPlayerValue_not_neg.
Qed.

(** For every input [setNewClub] either returns with the club and the value
    both set, or raises a [ValueError] with the player as it was. *)
Lemma setNewClub_cases c fee p :
  (Str.blank c = false /\ (fee <? 0)%float = false /\
   Models.setNewClub c fee p
   = (mkPlayer (name p) (position p) (Str.strip c) fee, Return (Str.strip c)))
  \/ ((Str.blank c = true \/ (fee <? 0)%float = true) /\
      exists msg, Models.setNewClub c fee p = (p, Raise (ValueError msg))).
Proof.
  destruct (Str.blank c) eqn:Hc.
  - right. split; [by left|]. eexists. by apply setNewClub_blank.
  - destruct (fee <? 0)%float eqn:H.
    + right. split; [by right|]. eexists. by apply setNewClub_negative.
    + left. split; [done|]. split; [done|]. by apply setNewClub_valid.
Qed.

Lemma setNewClub_keeps c fee p :
  keeps_name_position p (fst (Models.setNewClub c fee p)).
Proof.
  destruct (setNewClub_cases c fee p) as [(_ & _ & ->)|[_ [msg ->]]]; done.
Qed.


End MethodFrames.


(** * The properties of the specification *)

(** ** Adjusting a value *)

(** C2. On an index in range, [update_player_value] (AdjustValue) with a
    negative amount sets the value of the player to its value minus the
    magnitude of the amount, with no floor at zero, and with an amount of
    zero or more to its value plus the amount; the difference and the sum
    are those of floats. The response carries the updated record. *)
Theorem update_player_value_adjusts w i delta p :
  in_range w i -> entry w (Z.to_nat i) = Some p ->
  ((delta <? 0)%float = true ->
   snd (Main.update_player_value i delta w)
   = Return (dict_of (set_value (value p - PrimFloat.abs delta) p)) /\
   entry (fst (Main.update_player_value i delta w)) (Z.to_nat i)
   = Some (set_value (value p - PrimFloat.abs delta) p))
  /\ ((0 <=? delta)%float = true ->
      snd (Main.update_player_value i delta w)
      = Return (dict_of (set_value (value p + delta) p)) /\
      entry (fst (Main.update_player_value i delta w)) (Z.to_nat i)
      = Some (set_value (value p + delta) p)).
Proof.
  intros Hi (l & Hl & Hp)%entry_Some.
  rewrite (update_player_value_in_range w i delta l p Hi Hl Hp).
  split; intros Hd.
  - rewrite inOrDecrisePlayerValue_neg by exact Hd. simpl.
    split; [done | by eapply entry_insert_eq].
  - rewrite inOrDecrisePlayerValue_not_neg by (by apply leb_zero_not_ltb). simpl.
    split; [done | by eapply entry_insert_eq].
Qed.

Lemma update_player_value_adjusts_witness :
  (snd (Main.update_player_value 0 (-5) (single (haaland 100)))
   = Return (dict_of (haaland 95)) /\
   entry (fst (Main.update_player_value 0 (-5) (single (haaland 100)))) 0
   = Some (haaland 95))
  /\ (snd (Main.update_player_value 0 5 (single (haaland 100)))
      = Return (dict_of (haaland 105)) /\
      entry (fst (Main.update_player_value 0 5 (single (haaland 100)))) 0
      = Some (haaland 105)).
Proof.
  split.
  - refine (proj1 (update_player_value_adjusts (single (haaland 100)) 0 (-5)
                     (haaland 100) _ _) _).
    + split; simpl; lia.
    + reflexivity.
    + reflexivity.
  - refine (proj2 (update_player_value_adjusts (single (haaland 100)) 0 5
                     (haaland 100) _ _) _).
    + split; simpl; lia.
    + reflexivity.
    + reflexivity.
Defined.

Example adjust_100_by_minus_5 :
  Models.inOrDecrisePlayerValue (-5) (haaland 100) = (haaland 95, Return 95%float).
Proof. reflexivity. Qed.

Example adjust_100_by_5 :
  Models.inOrDecrisePlayerValue 5 (haaland 100) = (haaland 105, Return 105%float).
Proof. reflexivity. Qed.

Example adjust_below_zero :
  Models.inOrDecrisePlayerValue (-30) (haaland 20)
  = (haaland (-10), Return (-10)%float).
Proof. reflexivity. Qed.

(** The sum is the rounded one, and it overflows to infinity. The decimal
    numbers below stand for the nearest floats, as they do in Python. *)
#[local] Set Warnings "-inexact-float".

Example adjust_rounds :
  Models.inOrDecrisePlayerValue 0.1 (haaland 0.2)
  = (haaland 0.30000000000000004, Return 0.30000000000000004%float)
  /\ Models.inOrDecrisePlayerValue 1 (haaland 9007199254740992)
     = (haaland 9007199254740992, Return 9007199254740992%float)
  /\ Models.inOrDecrisePlayerValue 1e308 (haaland 1e308)
     = (haaland infinity, Return infinity).
Proof. repeat split. Qed.

(** ** Transfers *)

(** C5. On an index in range, [transfer_player] with a club that is not
    blank and a fee of zero or more sets the club to the stripped club and
    the value to the fee; with a blank club or a negative fee it fails with
    status 400 and changes nothing; on an index out of range it fails with
    status 404. This holds of [transfer_player] of [backend/app/main.py],
    whose [setNewClub] sets the value through [setNewPlayerValue], and of
    [transfer_player] of [backend/main.py], whose [setNewClub] assigns it. *)
Theorem transfer_player_spec w i c fee transfer :
  transfer = Main.transfer_player \/ transfer = Api.transfer_player ->
  (forall p, in_range w i -> entry w (Z.to_nat i) = Some p ->
     Str.blank c = false -> (0 <=? fee)%float = true ->
     snd (transfer i c fee w)
     = Return (dict_of (mkPlayer (name p) (position p) (Str.strip c) fee)) /\
     entry (fst (transfer i c fee w)) (Z.to_nat i)
     = Some (mkPlayer (name p) (position p) (Str.strip c) fee))
  /\ (forall p, in_range w i -> entry w (Z.to_nat i) = Some p ->
     Str.blank c = true \/ (fee <? 0)%float = true ->
     exists msg,
       transfer i c fee w = (w, Raise (HTTPException 400 msg)))
  /\ (~ in_range w i ->
      transfer i c fee w
      = (w, Raise (HTTPException 404 "Player not found"))).
Proof.
  intros Ht.
  assert (E : transfer i c fee w = Main.transfer_player i c fee w).
  { destruct Ht as [->| ->]; [done | apply transfer_player_direct_nested]. }
  rewrite !E. clear Ht E transfer.
  split; [|split].
  - intros p Hi (l & Hl & Hp)%entry_Some Hc Hfee.
    rewrite (transfer_player_in_range w i c fee l p Hi Hl Hp).
    rewrite setNewClub_valid by (done || by apply leb_zero_not_ltb). simpl.
    split; [done | by eapply entry_insert_eq].
  - intros p Hi (l & Hl & Hp)%entry_Some Hbad.
    rewrite (transfer_player_in_range w i c fee l p Hi Hl Hp).
    destruct (setNewClub_cases c fee p) as [(Hc & Hfee & _)|[_ [msg ->]]].
    + destruct Hbad as [?|?]; congruence.
    + simpl. rewrite entry_insert_same by exact Hp. by eexists.
  - apply transfer_player_out_of_range.
Qed.

Lemma transfer_player_spec_witness :
  ((snd (Main.transfer_player 0 " Real Madrid " 200 (single (haaland 180)))
    = Return (dict_of (mkPlayer "Erling Haaland" "FW" "Real Madrid" 200)) /\
    entry (fst (Main.transfer_player 0 " Real Madrid " 200 (single (haaland 180)))) 0
    = Some (mkPlayer "Erling Haaland" "FW" "Real Madrid" 200))
   /\ (exists msg,
         Main.transfer_player 0 "PSG" (-1) (single (haaland 180))
         = (single (haaland 180), Raise (HTTPException 400 msg)))
   /\ Main.transfer_player 1 "PSG" 220 (single (haaland 180))
      = (single (haaland 180), Raise (HTTPException 404 "Player not found")))
  /\ ((snd (Api.transfer_player 0 " Real Madrid " 200 (single (haaland 180)))
       = Return (dict_of (mkPlayer "Erling Haaland" "FW" "Real Madrid" 200)) /\
       entry (fst (Api.transfer_player 0 " Real Madrid " 200 (single (haaland 180)))) 0
       = Some (mkPlayer "Erling Haaland" "FW" "Real Madrid" 200))
      /\ (exists msg,
            Api.transfer_player 0 "  " 220 (single (haaland 180))
            = (single (haaland 180), Raise (HTTPException 400 msg)))
      /\ Api.transfer_player (-1) "PSG" 220 (single (haaland 180))
         = (single (haaland 180), Raise (HTTPException 404 "Player not found"))).
Proof.
  split; (split; [|split]).
  - refine (proj1 (transfer_player_spec (single (haaland 180)) 0 " Real Madrid " 200
                     Main.transfer_player _) (haaland 180) _ _ _ _).
    + by left.
    + split; simpl; lia.
    + reflexivity.
    + reflexivity.
    + reflexivity.
  - refine (proj1 (proj2 (transfer_player_spec (single (haaland 180)) 0 "PSG" (-1)
                            Main.transfer_player _)) (haaland 180) _ _ _).
    + by left.
    + split; simpl; lia.
    + reflexivity.
    + right. reflexivity.
  - refine (proj2 (proj2 (transfer_player_spec (single (haaland 180)) 1 "PSG" 220
                            Main.transfer_player _)) _).
    + by left.
    + unfold in_range. simpl. lia.
  - refine (proj1 (transfer_player_spec (single (haaland 180)) 0 " Real Madrid " 200
                     Api.transfer_player _) (haaland 180) _ _ _ _).
    + by right.
    + split; simpl; lia.
    + reflexivity.
    + reflexivity.
    + reflexivity.
  - refine (proj1 (proj2 (transfer_player_spec (single (haaland 180)) 0 "  " 220
                            Api.transfer_player _)) (haaland 180) _ _ _).
    + by right.
    + split; simpl; lia.
    + reflexivity.
    + left. reflexivity.
  - refine (proj2 (proj2 (transfer_player_spec (single (haaland 180)) (-1) "PSG" 220
                            Api.transfer_player _)) _).
    + by right.
    + unfold in_range. simpl. lia.
Defined.

(** C10. In [setNewClub] of [backend/app/models.py], once the two guards
    have passed (the club is not empty before or after stripping, the fee is
    not negative), the nested [setNewPlayerValue] returns on whatever player
    it is called, and [setNewClub] returns with the club and the value both
    set: it does not raise and does not stop between the two assignments. *)
Theorem setNewClub_nested_call_returns c fee p :
  negb (Str.truthy c) || negb (Str.truthy (Str.strip c)) = false ->
  (0 <=? fee)%float = true ->
  (forall q, Models.setNewPlayerValue fee q = (set_value fee q, Return fee))
  /\ Models.setNewClub c fee p
     = (mkPlayer (name p) (position p) (Str.strip c) fee, Return (Str.strip c)).
Proof.
  rewrite blank_guard. intros Hc Hfee%leb_zero_not_ltb. split.
  - intros q. by apply setNewPlayerValue_not_neg.
  - by apply setNewClub_valid.
Qed.

Lemma setNewClub_nested_call_returns_witness :
  (forall q, Models.setNewPlayerValue 220 q = (set_value 220 q, Return 220%float))
  /\ Models.setNewClub "PSG" 220 (haaland 150)
     = (mkPlayer "Erling Haaland" "FW" "PSG" 220, Return "PSG").
Proof.
  apply (setNewClub_nested_call_returns "PSG" 220 (haaland 150)).
  - reflexivity.
  - reflexivity.
Defined.

(** No input leaves a player with the club changed and the value not:
    when [setNewClub] raises, the player is as before. *)
Lemma setNewClub_raise_unchanged c fee p e :
  snd (Models.setNewClub c fee p) = Raise e -> fst (Models.setNewClub c fee p) = p.
Proof.
  destruct (setNewClub_cases c fee p) as [(_ & _ & ->)|[_ [msg ->]]]; done.
Qed.

(** The same holds of a fee that is not a number: it is not below zero, so
    both guards let it through and it becomes the value. *)
Example setNewClub_nan :
  Models.setNewClub "PSG" nan (haaland 150)
  = (mkPlayer "Erling Haaland" "FW" "PSG" nan, Return "PSG").
Proof. reflexivity. Qed.

(** ** Setting a value *)

(** C3, as stated, fails on [backend/app/models.py]: a negative new value
    is rejected and the value stays what it was. *)
Lemma setNewPlayerValue_rejects_negative :
  call 0 (Models.setNewPlayerValue (-5)) (single (haaland 100))
  = (single (haaland 100),
     Raise (ValueError "Invalid value format. Must be a number"))
  /\ ~ (forall w l p v,
         heap w !! l = Some p ->
         exists p', heap (fst (call l (Models.setNewPlayerValue v) w)) !! l = Some p'
                    /\ (value p' =? PrimFloat.abs v)%float = true).
Proof.
  split; [reflexivity|].
  intros H.
  destruct (H (single (haaland 100)) 0%nat (haaland 100) (-5)%float eq_refl)
    as (p' & Hp' & Hv).
  injection Hp' as <-. vm_compute in Hv. discriminate Hv.
Qed.

(** C3, amended. On the player at a position of the roster, the
    [setNewPlayerValue] of [playerObj.py] sets the value to the absolute
    value of the new value, whatever its sign; the one of
    [backend/app/models.py] sets it to the new value, which is equal to its
    absolute value, for a new value of zero or more, and for a negative one
    raises a [ValueError] and changes nothing. *)
Theorem setNewPlayerValue_spec w n l p v :
  players w !! n = Some l -> heap w !! l = Some p ->
  (snd (call l (Terminal.setNewPlayerValue v) w) = Return tt /\
   entry (fst (call l (Terminal.setNewPlayerValue v) w)) n
   = Some (set_value (PrimFloat.abs v) p))
  /\ ((0 <=? v)%float = true ->
      snd (call l (Models.setNewPlayerValue v) w) = Return v /\
      entry (fst (call l (Models.setNewPlayerValue v) w)) n
      = Some (set_value v p) /\
      (PrimFloat.abs v =? v)%float = true)
  /\ ((v <? 0)%float = true ->
      call l (Models.setNewPlayerValue v) w
      = (w, Raise (ValueError "Invalid value format. Must be a number"))).
Proof.
  intros Hl Hp. split; [|split].
  - rewrite (call_ok _ w l p Hp). simpl.
    split; [done | by eapply entry_insert_eq].
  - intros Hv. rewrite (call_ok _ w l p Hp).
    rewrite setNewPlayerValue_not_neg by (by apply leb_zero_not_ltb). simpl.
    split; [done|]. split; [by eapply entry_insert_eq | by apply abs_nonneg_eqb].
  - intros Hv. rewrite (call_ok _ w l p Hp).
    rewrite setNewPlayerValue_neg by exact Hv. simpl.
    by rewrite entry_insert_same.
Qed.

Lemma setNewPlayerValue_spec_witness :
  (snd (call 0 (Terminal.setNewPlayerValue (-5)) (single (haaland 100))) = Return tt /\
   entry (fst (call 0 (Terminal.setNewPlayerValue (-5)) (single (haaland 100)))) 0
   = Some (haaland 5))
  /\ (snd (call 0 (Models.setNewPlayerValue 5) (single (haaland 100)))
      = Return 5%float /\
      entry (fst (call 0 (Models.setNewPlayerValue 5) (single (haaland 100)))) 0
      = Some (haaland 5) /\
      (PrimFloat.abs 5 =? 5)%float = true)
  /\ call 0 (Models.setNewPlayerValue (-5)) (single (haaland 100))
     = (single (haaland 100),
        Raise (ValueError "Invalid value format. Must be a number")).
Proof.
  split; [|split].
  - exact (proj1 (setNewPlayerValue_spec (single (haaland 100)) 0 0 (haaland 100)
                    (-5) eq_refl eq_refl)).
  - refine (proj1 (proj2 (setNewPlayerValue_spec (single (haaland 100)) 0 0
                            (haaland 100) 5 eq_refl eq_refl)) _).
    reflexivity.
  - refine (proj2 (proj2 (setNewPlayerValue_spec (single (haaland 100)) 0 0
                            (haaland 100) (-5) eq_refl eq_refl)) _).
    reflexivity.
Defined.
(** ** Indices out of range *)

(** C7. On an index below zero or not below the length of the roster, the
    three indexed handlers ([transfer_player], [update_player_value],
    [delete_player]) fail with status 404 and leave the store as it was. *)
Theorem out_of_range_not_found w i :
  (i < 0 \/ Z.of_nat (length (players w)) <= i)%Z ->
  (forall c fee,
      Main.transfer_player i c fee w
      = (w, Raise (HTTPException 404 "Player not found")))
  /\ (forall amount,
        Main.update_player_value i amount w
        = (w, Raise (HTTPException 404 "Player not found")))
  /\ Main.delete_player i w = (w, Raise (HTTPException 404 "Player not found")).
Proof.
  intros Hi.
  assert (Hout : ~ in_range w i) by (unfold in_range; lia).
  split; [|split].
  - intros c fee. by apply transfer_player_out_of_range.
  - intros amount. by apply update_player_value_out_of_range.
  - by apply delete_player_out_of_range.
Qed.

Lemma out_of_range_not_found_witness :
  ((forall c fee,
       Main.transfer_player (-1) c fee initial
       = (initial, Raise (HTTPException 404 "Player not found")))
   /\ (forall amount,
         Main.update_player_value (-1) amount initial
         = (initial, Raise (HTTPException 404 "Player not found")))
   /\ Main.delete_player (-1) initial
      = (initial, Raise (HTTPException 404 "Player not found")))
  /\ ((forall c fee,
         Main.transfer_player 5 c fee initial
         = (initial, Raise (HTTPException 404 "Player not found")))
      /\ (forall amount,
            Main.update_player_value 5 amount initial
            = (initial, Raise (HTTPException 404 "Player not found")))
      /\ Main.delete_player 5 initial
         = (initial, Raise (HTTPException 404 "Player not found"))).
Proof.
  split.
  - apply (out_of_range_not_found initial (-1)). left. lia.
  - apply (out_of_range_not_found initial 5). right. simpl. lia.
Defined.

(** ** Deleting *)

(** C6, as stated, fails on the records: after the same body is created
    twice, deleting the first of the two returns a record that the roster
    still holds, at the position of the second. *)
Lemma delete_leaves_equal_record :
  reachable VALID_POSITIONS
    (handle VALID_POSITIONS (CreatePlayer (PlayerBase.mk "Pedri" "CM" "Barcelona" 100))
       (handle VALID_POSITIONS
          (CreatePlayer (PlayerBase.mk "Pedri" "CM" "Barcelona" 100)) initial))
  /\ snd (Main.delete_player 5
            (handle VALID_POSITIONS
               (CreatePlayer (PlayerBase.mk "Pedri" "CM" "Barcelona" 100))
               (handle VALID_POSITIONS
                  (CreatePlayer (PlayerBase.mk "Pedri" "CM" "Barcelona" 100))
                  initial)))
     = Return (dict_of (mkPlayer "Pedri" "CM" "Barcelona" 100))
  /\ roster (fst (Main.delete_player 5
                    (handle VALID_POSITIONS
                       (CreatePlayer (PlayerBase.mk "Pedri" "CM" "Barcelona" 100))
                       (handle VALID_POSITIONS
                          (CreatePlayer (PlayerBase.mk "Pedri" "CM" "Barcelona" 100))
                          initial))))
     !! 5%nat
     = Some (mkPlayer "Pedri" "CM" "Barcelona" 100).
Proof.
  split; [|split].
  - apply reachable_handle, reachable_handle, reachable_initial.
  - reflexivity.
  - reflexivity.
Qed.

(** C6, amended. In a well-formed store, [delete_player] on an index in
    range returns the record at that position and takes its object out of
    [players]: the roster is the roster before without that position, one
    shorter; the object is no longer listed, and the record no longer
    occurs in the roster when no other position held an equal record; the
    records before the position stay where they were and the records after
    it move down by one. On an index out of range it fails with status
    404. *)
Theorem delete_player_spec w i :
  well_formed w ->
  (in_range w i ->
   exists l p,
     players w !! Z.to_nat i = Some l /\ entry w (Z.to_nat i) = Some p /\
     Main.delete_player i w
     = (mkWorld (heap w) (delete (Z.to_nat i) (players w)), Return (dict_of p)) /\
     roster (fst (Main.delete_player i w)) = delete (Z.to_nat i) (roster w) /\
     S (length (roster (fst (Main.delete_player i w)))) = length (roster w) /\
     (l ∉ players (fst (Main.delete_player i w))) /\
     ((forall j, j <> Z.to_nat i -> entry w j <> Some p) ->
      p ∉ roster (fst (Main.delete_player i w))) /\
     (forall j, (j < Z.to_nat i)%nat ->
                entry (fst (Main.delete_player i w)) j = entry w j) /\
     (forall j, (Z.to_nat i <= j)%nat ->
                entry (fst (Main.delete_player i w)) j = entry w (S j)))
  /\ (~ in_range w i ->
      Main.delete_player i w = (w, Raise (HTTPException 404 "Player not found"))).
Proof.
  intros Hw. split; [|apply delete_player_out_of_range].
  intros Hi. destruct (well_formed_entry w i Hw Hi) as (l & p & Hl & Hp).
  exists l, p. rewrite (delete_player_in_range w i l p Hi Hl Hp). simpl.
  set (n := Z.to_nat i) in *. set (w' := mkWorld _ _).
  assert (Hw' : well_formed w') by (by apply well_formed_delete).
  assert (Hbefore : forall j, (j < n)%nat -> entry w' j = entry w j).
  { intros j Hj. unfold entry, w'. simpl. by rewrite list_lookup_delete_lt. }
  assert (Hafter : forall j, (n <= j)%nat -> entry w' j = entry w (S j)).
  { intros j Hj. unfold entry, w'. simpl. by rewrite list_lookup_delete_ge. }
  split; [done|]. split; [apply entry_Some; eauto|]. split; [done|].
  split; [|split; [|split; [|split; [|split]]]]; [| | | |done|done].
  - apply list_eq. intros j.
    rewrite (roster_lookup w' j Hw'), list_lookup_delete.
    rewrite (roster_lookup w _ Hw).
    case_decide; [by apply Hbefore | apply Hafter; lia].
  - rewrite !roster_length by done. unfold w'. simpl.
    rewrite length_delete by eauto.
    apply lookup_lt_Some in Hl. lia.
  - apply not_elem_of_delete; [apply Hw | done].
  - intros Hother (j & Hj)%list_elem_of_lookup_1.
    rewrite (roster_lookup w' j Hw') in Hj.
    destruct (decide (j < n)%nat) as [Hlt|Hge].
    + rewrite Hbefore in Hj by done. apply (Hother j); [lia | done].
    + rewrite Hafter in Hj by lia. apply (Hother (S j)); [lia | done].
Qed.

Lemma delete_player_spec_witness :
  (exists l p,
     players initial !! Z.to_nat 1 = Some l /\ entry initial (Z.to_nat 1) = Some p /\
     Main.delete_player 1 initial
     = (mkWorld (heap initial) (delete (Z.to_nat 1) (players initial)),
        Return (dict_of p)) /\
     roster (fst (Main.delete_player 1 initial))
     = delete (Z.to_nat 1) (roster initial) /\
     S (length (roster (fst (Main.delete_player 1 initial)))) = length (roster initial) /\
     (l ∉ players (fst (Main.delete_player 1 initial))) /\
     ((forall j, j <> Z.to_nat 1 -> entry initial j <> Some p) ->
      p ∉ roster (fst (Main.delete_player 1 initial))) /\
     (forall j, (j < Z.to_nat 1)%nat ->
                entry (fst (Main.delete_player 1 initial)) j = entry initial j) /\
     (forall j, (Z.to_nat 1 <= j)%nat ->
                entry (fst (Main.delete_player 1 initial)) j = entry initial (S j)))
  /\ Main.delete_player 9 initial
     = (initial, Raise (HTTPException 404 "Player not found")).
Proof.
  assert (Hw : well_formed initial) by well_formed_by_evaluation.
  split.
  - apply (proj1 (delete_player_spec initial 1 Hw)).
    split; simpl; lia.
  - apply (proj2 (delete_player_spec initial 9 Hw)).
    unfold in_range. simpl. lia.
Defined.

Example delete_second_of_initial :
  players (fst (Main.delete_player 1 initial)) = [0; 2; 3; 4]%nat.
Proof. reflexivity. Qed.
(** ** Creating and listing *)

(** C8. In a well-formed store, a creation that returns has put the
    constructed player in a fresh object and appended it to [players]: the
    roster is the roster before followed by the new player, which the
    response describes. [get_players] then returns the records of that
    roster in order and leaves the store as it is. *)
Theorem create_player_appends order w d w' r :
  well_formed w ->
  Main.create_player order d w = (w', Return r) ->
  exists p,
    Player_init order (PlayerBase.name d) (PlayerBase.position d)
                (PlayerBase.club d) (PlayerBase.value d) = Return p /\
    r = dict_of p /\
    players w' = (players w ++ [length (heap w)])%list /\
    roster w' = (roster w ++ [p])%list /\
    Main.get_players w' = (w', Return (dict_of <$> (roster w ++ [p])%list)).
Proof.
  intros Hw Hc.
  destruct (create_player_cases order d w) as [(p & Hp & Hc')|[msg Hc']];
    rewrite Hc' in Hc; [|discriminate].
  injection Hc as <- <-. exists p.
  split; [done|]. split; [done|]. split; [done|].
  split; [by apply roster_append|].
  rewrite get_players_spec by (by apply well_formed_append).
  by rewrite roster_append.
Qed.

Lemma create_player_appends_witness :
  exists p,
    Player_init VALID_POSITIONS "Lamine Yamal" "FW" " Barcelona " 200 = Return p /\
    dict_of (mkPlayer "Lamine Yamal" "FW" "Barcelona" 200) = dict_of p /\
    [0; 1]%nat = (players (single (haaland 180)) ++ [length (heap (single (haaland 180)))])%list /\
    [haaland 180; mkPlayer "Lamine Yamal" "FW" "Barcelona" 200]
    = (roster (single (haaland 180)) ++ [p])%list /\
    Main.get_players
      (mkWorld [haaland 180; mkPlayer "Lamine Yamal" "FW" "Barcelona" 200] [0; 1]%nat)
    = (mkWorld [haaland 180; mkPlayer "Lamine Yamal" "FW" "Barcelona" 200] [0; 1]%nat,
       Return (dict_of <$> (roster (single (haaland 180)) ++ [p])%list)).
Proof.
  apply (create_player_appends VALID_POSITIONS (single (haaland 180))
           (PlayerBase.mk "Lamine Yamal" "FW" " Barcelona " 200)
           (mkWorld [haaland 180; mkPlayer "Lamine Yamal" "FW" "Barcelona" 200]
                    [0; 1]%nat)
           (dict_of (mkPlayer "Lamine Yamal" "FW" "Barcelona" 200))).
  - well_formed_by_evaluation.
  - reflexivity.
Defined.

(** [get_players] reads and does not write. *)
Lemma get_players_read_only w :
  well_formed w -> fst (Main.get_players w) = w.
Proof. intros Hw. by rewrite get_players_spec. Qed.

(** C4 fails on a name of white space only: the constructor tests the name
    before stripping it, and the request model only asks for one character.
    The request below passes the declared constraints, is accepted, and
    the player is stored with the empty name. *)
Theorem create_player_blank_name order :
  PlayerBase.valid (PlayerBase.mk "   " "FW" "PSG" 10) = true /\
  Main.create_player order (PlayerBase.mk "   " "FW" "PSG" 10) initial
  = (mkWorld (heap initial ++ [mkPlayer "" "FW" "PSG" 10])
             (players initial ++ [5%nat]),
     Return (dict_of (mkPlayer "" "FW" "PSG" 10))).
Proof. split; reflexivity. Qed.

(** Creation succeeds on every non-empty name and club, valid position and
    value of zero or more; it stores the stripped name and club, which are
    empty when the given ones are white space. *)
Lemma create_player_succeeds order d w :
  PlayerBase.name d <> "" -> PlayerBase.club d <> "" ->
  in_valid_positions (PlayerBase.position d) = true ->
  (0 <=? PlayerBase.value d)%float = true ->
  Main.create_player order d w
  = (mkWorld (heap w ++ [mkPlayer (Str.strip (PlayerBase.name d))
                                  (Str.strip (PlayerBase.position d))
                                  (Str.strip (PlayerBase.club d))
                                  (PlayerBase.value d)])
             (players w ++ [length (heap w)]),
     Return (dict_of (mkPlayer (Str.strip (PlayerBase.name d))
                               (Str.strip (PlayerBase.position d))
                               (Str.strip (PlayerBase.club d))
                               (PlayerBase.value d)))).
Proof.
  intros Hn Hc Hpos Hv%leb_zero_not_ltb. apply create_player_accepts; [done|].
  destruct (Player_init_cases order (PlayerBase.name d) (PlayerBase.position d)
              (PlayerBase.club d) (PlayerBase.value d))
    as [(_ & _ & _ & _ & Hp) | [H _]]; [done|].
  destruct H as [?|[?|[?|?]]]; [done | done | congruence | congruence].
Qed.

(** ** What the updates leave alone *)

(** C9. In a well-formed store and on an index in range,
    [update_player_value] and [setNewPlayerValue] on the player at the
    index keep its name, position and club, [transfer_player] keeps its
    name and position, and all three keep the list [players] and the record
    at every other position. *)
Theorem indexed_updates_frame w i l :
  well_formed w -> in_range w i -> players w !! Z.to_nat i = Some l ->
  (forall delta,
      frame keeps_name_position_club (Z.to_nat i) w
            (fst (Main.update_player_value i delta w)))
  /\ (forall v,
        frame keeps_name_position_club (Z.to_nat i) w
              (fst (call l (Models.setNewPlayerValue v) w)))
  /\ (forall c fee,
        frame keeps_name_position (Z.to_nat i) w
              (fst (Main.transfer_player i c fee w))).
Proof.
  intros Hw Hi Hl.
  destruct (well_formed_entry w i Hw Hi) as (l' & p & Hl' & Hp).
  assert (l' = l) as -> by congruence. clear Hl'.
  destruct Hw as [Hnd _].
  split; [|split].
  - intros delta.
    rewrite (update_player_value_in_range w i delta l p Hi Hl Hp). simpl.
    eapply frame_insert; eauto using inOrDecrisePlayerValue_keeps.
  - intros v. rewrite (call_ok _ w l p Hp). simpl.
    eapply frame_insert; eauto using setNewPlayerValue_keeps.
  - intros c fee.
    rewrite (transfer_player_in_range w i c fee l p Hi Hl Hp). simpl.
    eapply frame_insert; eauto using setNewClub_keeps.
Qed.

Lemma indexed_updates_frame_witness :
  (forall delta,
      frame keeps_name_position_club (Z.to_nat 2) initial
            (fst (Main.update_player_value 2 delta initial)))
  /\ (forall v,
        frame keeps_name_position_club (Z.to_nat 2) initial
              (fst (call 2 (Models.setNewPlayerValue v) initial)))
  /\ (forall c fee,
        frame keeps_name_position (Z.to_nat 2) initial
              (fst (Main.transfer_player 2 c fee initial))).
Proof.
  apply (indexed_updates_frame initial 2 2%nat).
  - well_formed_by_evaluation.
  - split; simpl; lia.
  - reflexivity.
Defined.

(** ** Values below zero *)


(** It fails as well on a number that is not one: NaN is not below zero,
    passes the guards of a transfer and becomes the value. *)
Example transfer_nan_is_stored :
  roster (handle VALID_POSITIONS (TransferPlayer 0 "PSG" nan) initial) !! 0%nat
  = Some (mkPlayer "Erling Haaland" "FW" "PSG" nan)
  /\ (0 <=? nan)%float = false.
Proof. split; reflexivity. Qed.

(** Deleting keeps the values at zero or more. *)
Lemma delete_player_nonneg w i :
  well_formed w -> nonneg_values w ->
  nonneg_values (fst (Main.delete_player i w)).
Proof.
  intros Hw Hnn. destruct (in_range_cases w i) as [Hi|Hi].
  - destruct (well_formed_entry w i Hw Hi) as (l & p & Hl & Hp).
    rewrite (delete_player_in_range w i l p Hi Hl Hp). simpl.
    by apply nonneg_values_delete.
  - by rewrite delete_player_out_of_range.
Qed.



(** ** The example of the specification, end to end *)

Example end_to_end :
  let w0 := single (mkPlayer "Haaland" "FW" "ManCity" 180) in
  let w1 := fst (Main.update_player_value 0 (-30) w0) in
  let w2 := fst (Main.transfer_player 0 "PSG" 220 w1) in
  let w3 := fst (Main.delete_player 0 w2) in
  roster w1 = [mkPlayer "Haaland" "FW" "ManCity" 150]
  /\ roster w2 = [mkPlayer "Haaland" "FW" "PSG" 220]
  /\ roster w3 = [].
Proof. repeat split. Qed.
(** * Further properties of the code *)

(** ** Stripping twice *)

Section StripTwice.

Lemma lstrip_length s : (String.length (Str.lstrip s) <= String.length s)%nat.
Proof.
  induction s as [|c s IH]; simpl; [lia|].
  destruct (Str.isspace c); simpl; lia.
Qed.

Lemma lstrip_fixed_head c s :
  Str.lstrip (String c s) = String c s -> Str.isspace c = false.
Proof.
  simpl. destruct (Str.isspace c); [|done].
  intros H. pose proof (lstrip_length s) as Hlen.
  rewrite H in Hlen. simpl in Hlen. lia.
Qed.

Lemma lstrip_lstrip s : Str.lstrip (Str.lstrip s) = Str.lstrip s.
Proof.
  induction s as [|c s IH]; simpl; [done|].
  destruct (Str.isspace c) eqn:E; [exact IH|].
  simpl. by rewrite E.
Qed.

Lemma lstrip_rstrip_fixed t :
  Str.lstrip t = t -> Str.lstrip (Str.rstrip t) = Str.rstrip t.
Proof.
  destruct t as [|c s]; [done|].
  intros Hc%lstrip_fixed_head. simpl. rewrite Hc.
  destruct (Str.rstrip s); simpl; by rewrite Hc.
Qed.

Lemma rstrip_cons c s :
  Str.rstrip s <> "" -> Str.rstrip (String c s) = String c (Str.rstrip s).
Proof. simpl. by destruct (Str.rstrip s). Qed.

Lemma rstrip_rstrip s : Str.rstrip (Str.rstrip s) = Str.rstrip s.
Proof.
  induction s as [|c s IH]; [done|].
  destruct (Str.rstrip s) as [|a r] eqn:E.
  - simpl. rewrite E.
    destruct (Str.isspace c) eqn:Ec; simpl; [done|]. by rewrite Ec.
  - rewrite (rstrip_cons c s) by (by rewrite E). rewrite E.
    rewrite rstrip_cons by (by rewrite IH). by rewrite IH.
Qed.

Lemma strip_strip s : Str.strip (Str.strip s) = Str.strip s.
Proof.
  unfold Str.strip.
  rewrite (lstrip_rstrip_fixed (Str.lstrip s)) by apply lstrip_lstrip.
  apply rstrip_rstrip.
Qed.

Lemma in_valid_positions_cases s :
  in_valid_positions s = true -> s = "GK" \/ s = "DF" \/ s = "CM" \/ s = "FW".
Proof.
  unfold in_valid_positions, VALID_POSITIONS. simpl.
  rewrite !orb_true_iff, !String.eqb_eq. intuition congruence.
Qed.

Lemma strip_valid_position s :
  in_valid_positions s = true -> Str.strip s = s.
Proof.
  intros H. apply in_valid_positions_cases in H.
  destruct H as [->|[->|[->| ->]]]; reflexivity.
Qed.

End StripTwice.

(** ** Conditions every object keeps *)

Section HeapInvariant.

Variable order : list string.
Variable P : Player -> Prop.
Hypothesis P_initial : Forall P (heap initial).
Hypothesis P_init :
  forall n pos c v p, Player_init order n pos c v = Return p -> P p.
Hypothesis P_setNewClub :
  forall c fee p, P p -> P (fst (Models.setNewClub c fee p)).
Hypothesis P_adjust :
  forall a p, P p -> P (fst (Models.inOrDecrisePlayerValue a p)).

Lemma handle_heap_invariant r w :
  well_formed w -> Forall P (heap w) -> Forall P (heap (handle order r w)).
Proof.
  intros Hw HP. destruct r as [|d|i c m|i a|i]; simpl.
  - by rewrite get_players_spec.
  - destruct (create_player_cases order d w) as [(p & Hp & ->)|[msg ->]]; [|done].
    simpl. apply Forall_app. split; [done|]. apply Forall_singleton. eauto.
  - destruct (in_range_cases w i) as [Hi|Hi].
    + destruct (well_formed_entry w i Hw Hi) as (l & p & Hl & Hp).
      rewrite (transfer_player_in_range w i c m l p Hi Hl Hp). simpl.
      apply Forall_insert; [done|]. apply P_setNewClub.
      by eapply Forall_lookup_1.
    + by rewrite transfer_player_out_of_range.
  - destruct (in_range_cases w i) as [Hi|Hi].
    + destruct (well_formed_entry w i Hw Hi) as (l & p & Hl & Hp).
      rewrite (update_player_value_in_range w i a l p Hi Hl Hp). simpl.
      apply Forall_insert; [done|]. apply P_adjust.
      by eapply Forall_lookup_1.
    + by rewrite update_player_value_out_of_range.
  - destruct (in_range_cases w i) as [Hi|Hi].
    + destruct (well_formed_entry w i Hw Hi) as (l & p & Hl & Hp).
      by rewrite (delete_player_in_range w i l p Hi Hl Hp).
    + by rewrite delete_player_out_of_range.
Qed.

Lemma reachable_heap_invariant w : reachable order w -> Forall P (heap w).
Proof.
  induction 1 as [|r w Hr IH]; [exact P_initial|].
  apply handle_heap_invariant; [by eapply reachable_well_formed | done].
Qed.

Lemma reachable_roster_invariant w : reachable order w -> Forall P (roster w).
Proof.
  intros Hr. apply reachable_heap_invariant in Hr.
  rewrite Forall_forall in Hr. apply Forall_forall.
  intros p (l & _ & Hp)%list_elem_of_omap.
  apply Hr. by eapply list_elem_of_lookup_2.
Qed.

End HeapInvariant.

(** X1. In every state the handlers of [backend/app/main.py] can reach from
    the initial list, the position of every player of the roster is one of
    GK, DF, CM, FW. *)
Theorem reachable_valid_positions order w :
  reachable order w -> Forall valid_position (roster w).
Proof.
  apply reachable_roster_invariant.
  - by repeat constructor.
  - intros n pos c v p Hp.
    destruct (Player_init_cases order n pos c v)
      as [(_ & _ & Hpos & _ & Hp') | [_ [msg Hp']]];
      rewrite Hp' in Hp; [|discriminate].
    injection Hp as <-. unfold valid_position. simpl.
    by rewrite strip_valid_position.
  - intros c fee p Hp. unfold valid_position.
    by rewrite (proj2 (setNewClub_keeps c fee p)).
  - intros a p Hp. unfold valid_position.
    destruct (inOrDecrisePlayerValue_keeps a p) as (_ & -> & _). done.
Qed.

Lemma reachable_valid_positions_witness :
  Forall valid_position
         (roster (handle VALID_POSITIONS
                    (CreatePlayer (PlayerBase.mk "Pedri" "CM" "Barcelona" 100))
                    initial)).
Proof.
  apply (reachable_valid_positions VALID_POSITIONS
           (handle VALID_POSITIONS
              (CreatePlayer (PlayerBase.mk "Pedri" "CM" "Barcelona" 100)) initial)).
  apply reachable_handle. apply reachable_initial.
Defined.

(** X2. In every such state, the name, the position and the club of every
    player of the roster have no white space at either end: stripping them
    again changes nothing. *)
Theorem reachable_stripped order w :
  reachable order w -> Forall stripped (roster w).
Proof.
  apply reachable_roster_invariant.
  - by repeat constructor.
  - intros n pos c v p Hp.
    destruct (Player_init_cases order n pos c v)
      as [(_ & _ & _ & _ & Hp') | [_ [msg Hp']]];
      rewrite Hp' in Hp; [|discriminate].
    injection Hp as <-. unfold stripped. simpl.
    by rewrite !strip_strip.
  - intros c fee p (Hn & Hpos & Hc).
    destruct (setNewClub_cases c fee p) as [(_ & _ & ->)|[_ [msg ->]]]; simpl.
    + unfold stripped. simpl. by rewrite strip_strip.
    + done.
  - intros a p (Hn & Hpos & Hc).
    destruct (inOrDecrisePlayerValue_keeps a p) as (En & Epos & Ec).
    unfold stripped. by rewrite En, Epos, Ec.
Qed.

Lemma reachable_stripped_witness :
  Forall stripped
         (roster (handle VALID_POSITIONS (TransferPlayer 0 "  Real Madrid " 200)
                         initial)).
Proof.
  apply (reachable_stripped VALID_POSITIONS
           (handle VALID_POSITIONS (TransferPlayer 0 "  Real Madrid " 200) initial)).
  apply reachable_handle. apply reachable_initial.
Defined.

(** ** The status codes *)

(** X3. In every reachable state the handlers answer with these codes only:
    listing 200; creating 201 or 400; transferring 200, 400 or 404; changing
    a value 200 or 404, never 400; deleting 200 or 404. No request is
    answered with 500: the clauses [except Exception] are not reached. *)
Theorem respond_codes order w r :
  reachable order w ->
  match r with
  | GetPlayers => respond order r w = 200
  | CreatePlayer _ => respond order r w = 201 \/ respond order r w = 400
  | TransferPlayer _ _ _ =>
      respond order r w = 200 \/ respond order r w = 400
      \/ respond order r w = 404
  | UpdatePlayerValue _ _ => respond order r w = 200 \/ respond order r w = 404
  | DeletePlayer _ => respond order r w = 200 \/ respond order r w = 404
  end%Z.
Proof.
  intros Hw%reachable_well_formed. destruct r as [|d|i c m|i a|i]; simpl.
  - by rewrite get_players_spec.
  - destruct (create_player_cases order d w) as [(p & _ & ->)|[msg ->]];
      simpl; auto.
  - destruct (in_range_cases w i) as [Hi|Hi].
    + destruct (well_formed_entry w i Hw Hi) as (l & p & Hl & Hp).
      rewrite (transfer_player_in_range w i c m l p Hi Hl Hp).
      destruct (setNewClub_cases c m p) as [(_ & _ & ->)|[_ [msg ->]]];
        simpl; auto.
    + rewrite transfer_player_out_of_range by done. simpl. auto.
  - destruct (in_range_cases w i) as [Hi|Hi].
    + destruct (well_formed_entry w i Hw Hi) as (l & p & Hl & Hp).
      rewrite (update_player_value_in_range w i a l p Hi Hl Hp).
      destruct (a <? 0)%float eqn:E.
      * rewrite inOrDecrisePlayerValue_neg by done. simpl. auto.
      * rewrite inOrDecrisePlayerValue_not_neg by done. simpl. auto.
    + rewrite update_player_value_out_of_range by done. simpl. auto.
  - destruct (in_range_cases w i) as [Hi|Hi].
    + destruct (well_formed_entry w i Hw Hi) as (l & p & Hl & Hp).
      rewrite (delete_player_in_range w i l p Hi Hl Hp). simpl. auto.
    + rewrite delete_player_out_of_range by done. simpl. auto.
Qed.

Lemma respond_codes_witness :
  (respond VALID_POSITIONS (UpdatePlayerValue 4 (-500))
           (handle VALID_POSITIONS (DeletePlayer 0) initial) = 200
   \/ respond VALID_POSITIONS (UpdatePlayerValue 4 (-500))
              (handle VALID_POSITIONS (DeletePlayer 0) initial) = 404)%Z.
Proof.
  apply (respond_codes VALID_POSITIONS
           (handle VALID_POSITIONS (DeletePlayer 0) initial)
           (UpdatePlayerValue 4 (-500))).
  apply reachable_handle. apply reachable_initial.
Defined.

(** ** The variants of the handlers *)

(** X4. [transfer_player] of [backend/main.py] and of
    [backend/vercel_app.py], over the [setNewClub] that assigns the fee, and
    [transfer_player] of [backend/app/main.py], over the [setNewClub] that
    calls [setNewPlayerValue], give the same response and the same store on
    every request in every store. *)
Theorem transfer_player_variants_agree w i c fee :
  Api.transfer_player i c fee w = Main.transfer_player i c fee w.
Proof. apply transfer_player_direct_nested. Qed.

(** X5. [create_player] of [backend/main.py], which leaves the test of the
    value to the constructor, and [create_player] of [backend/app/main.py],
    which tests it first, leave the same store and give the same response,
    except on a negative value with an empty name, position or club: both
    answer 400 and change nothing, the first with the message of the empty
    field and the second with the message of the negative value. *)
Theorem create_player_variants order w d :
  ((0 <=? PlayerBase.value d)%float = true
   \/ (PlayerBase.name d <> "" /\ PlayerBase.position d <> ""
       /\ PlayerBase.club d <> "") ->
   Api.create_player order d w = Main.create_player order d w)
  /\ ((PlayerBase.value d <? 0)%float = true ->
      PlayerBase.name d = "" \/ PlayerBase.position d = ""
      \/ PlayerBase.club d = "" ->
      Api.create_player order d w
      = (w, Raise (HTTPException 400 "Name, position, and club cannot be empty"))
      /\ Main.create_player order d w
         = (w, Raise (HTTPException 400 "Player value cannot be negative"))).
Proof.
  destruct d as [n pos c v]. simpl.
  unfold Api.create_player, Main.create_player, try_except, bind, float,
    new_Player, Player_init. simpl.
  split.
  - intros H. destruct (v <? 0)%float eqn:Hv; simpl; [|done].
    destruct H as [H%leb_zero_not_ltb|(Hn & Hpos & Hc)]; [congruence|].
    destruct n; [done|]. destruct pos; [done|]. by destruct c.
  - intros Hv H. rewrite Hv. simpl.
    split; [|done].
    destruct n; [done|]. destruct pos; [done|]. destruct c; [done|].
    destruct H as [?|[?|?]]; done.
Qed.

Lemma create_player_variants_witness :
  Api.create_player VALID_POSITIONS (PlayerBase.mk "Pedri" "CM" "Barcelona" 100)
    initial
  = Main.create_player VALID_POSITIONS
      (PlayerBase.mk "Pedri" "CM" "Barcelona" 100) initial
  /\ (Api.create_player VALID_POSITIONS (PlayerBase.mk "" "CM" "Barcelona" (-1))
        initial
      = (initial,
         Raise (HTTPException 400 "Name, position, and club cannot be empty"))
      /\ Main.create_player VALID_POSITIONS
           (PlayerBase.mk "" "CM" "Barcelona" (-1)) initial
         = (initial, Raise (HTTPException 400 "Player value cannot be negative"))).
Proof.
  split.
  - apply (proj1 (create_player_variants VALID_POSITIONS initial
                    (PlayerBase.mk "Pedri" "CM" "Barcelona" 100))).
    left. reflexivity.
  - apply (proj2 (create_player_variants VALID_POSITIONS initial
                    (PlayerBase.mk "" "CM" "Barcelona" (-1)))).
    + reflexivity.
    + by left.
Defined.

(** ** The messages of the errors *)

(** X6. On an index in range, a transfer to a blank club is refused with
    the detail "New club cannot be empty", whatever the fee; a transfer to
    another club for a negative fee is refused with the detail "Invalid
    transfer money format. Must be a number": the message "Transfer money
    cannot be negative" that [setNewClub] raises is caught by its own
    [except] clause and replaced, and is the detail of no response. *)
Theorem transfer_player_details w i c fee p :
  in_range w i -> entry w (Z.to_nat i) = Some p ->
  (Str.blank c = true ->
   Main.transfer_player i c fee w
   = (w, Raise (HTTPException 400 "New club cannot be empty")))
  /\ (Str.blank c = false -> (fee <? 0)%float = true ->
      Main.transfer_player i c fee w
      = (w, Raise (HTTPException 400
                     "Invalid transfer money format. Must be a number")))
  /\ (forall code,
         snd (Main.transfer_player i c fee w)
         <> Raise (HTTPException code "Transfer money cannot be negative")).
Proof.
  intros Hi (l & Hl & Hp)%entry_Some.
  rewrite (transfer_player_in_range w i c fee l p Hi Hl Hp).
  split; [|split].
  - intros Hc. rewrite setNewClub_blank by done. simpl.
    by rewrite entry_insert_same.
  - intros Hc Hfee. rewrite setNewClub_negative by done. simpl.
    by rewrite entry_insert_same.
  - intros code.
    destruct (Str.blank c) eqn:Hc.
    + by rewrite setNewClub_blank.
    + destruct (fee <? 0)%float eqn:E.
      * by rewrite setNewClub_negative.
      * by rewrite setNewClub_valid.
Qed.

Lemma transfer_player_details_witness :
  Main.transfer_player 0 "  " (-3) initial
  = (initial, Raise (HTTPException 400 "New club cannot be empty"))
  /\ Main.transfer_player 0 "PSG" (-3) initial
     = (initial, Raise (HTTPException 400
                          "Invalid transfer money format. Must be a number"))
  /\ (forall code,
         snd (Main.transfer_player 0 "PSG" (-3) initial)
         <> Raise (HTTPException code "Transfer money cannot be negative")).
Proof.
  split; [|split].
  - refine (proj1 (transfer_player_details initial 0 "  " (-3) (haaland 180) _ _) _).
    + split; simpl; lia.
    + reflexivity.
    + reflexivity.
  - refine (proj1 (proj2 (transfer_player_details initial 0 "PSG" (-3)
                            (haaland 180) _ _)) _ _).
    + split; simpl; lia.
    + reflexivity.
    + reflexivity.
    + reflexivity.
  - refine (proj2 (proj2 (transfer_player_details initial 0 "PSG" (-3)
                            (haaland 180) _ _))).
    + split; simpl; lia.
    + reflexivity.
Defined.

(** X7. [create_player] of [backend/app/main.py] refuses a request with
    status 400 and an unchanged store, and the tests come in this order: a
    negative value gives "Player value cannot be negative" even when a
    field is empty; otherwise an empty name, position or club gives "Name,
    position, and club cannot be empty"; otherwise a position that is not
    one of the four gives a message that starts with "Invalid position.
    Must be one of: ". *)
Theorem create_player_details order w d :
  ((PlayerBase.value d <? 0)%float = true ->
   Main.create_player order d w
   = (w, Raise (HTTPException 400 "Player value cannot be negative")))
  /\ ((0 <=? PlayerBase.value d)%float = true ->
      PlayerBase.name d = "" \/ PlayerBase.position d = ""
      \/ PlayerBase.club d = "" ->
      Main.create_player order d w
      = (w, Raise (HTTPException 400 "Name, position, and club cannot be empty")))
  /\ ((0 <=? PlayerBase.value d)%float = true ->
      PlayerBase.name d <> "" -> PlayerBase.position d <> "" ->
      PlayerBase.club d <> "" ->
      in_valid_positions (PlayerBase.position d) = false ->
      exists detail,
        Main.create_player order d w = (w, Raise (HTTPException 400 detail))
        /\ Str.starts_with "Invalid position. Must be one of: " detail = true).
Proof.
  destruct d as [n pos c v]. simpl.
  unfold Main.create_player, try_except, bind, float, new_Player, Player_init.
  simpl. split; [|split].
  - intros Hv. by rewrite Hv.
  - intros Hv%leb_zero_not_ltb H. rewrite Hv. simpl.
    destruct n; [done|]. destruct pos; [done|]. destruct c; [done|].
    destruct H as [?|[?|?]]; done.
  - intros Hv%leb_zero_not_ltb Hn Hpos Hc Hbad.
    rewrite Hv. simpl.
    destruct n; [done|]. destruct pos as [|b pos]; [done|]. destruct c; [done|].
    simpl negb at 1 2 3. simpl orb.
    rewrite ?Hv, Hbad. simpl. eexists. split; reflexivity.
Qed.

Lemma create_player_details_witness :
  Main.create_player ["FW"; "CM"; "GK"; "DF"] (PlayerBase.mk "" "XX" "" (-1)) initial
  = (initial, Raise (HTTPException 400 "Player value cannot be negative"))
  /\ Main.create_player ["FW"; "CM"; "GK"; "DF"]
       (PlayerBase.mk "Pedri" "XX" "" 100) initial
     = (initial, Raise (HTTPException 400 "Name, position, and club cannot be empty"))
  /\ exists detail,
       Main.create_player ["FW"; "CM"; "GK"; "DF"]
         (PlayerBase.mk "Pedri" "XX" "Barcelona" 100) initial
       = (initial, Raise (HTTPException 400 detail))
       /\ Str.starts_with "Invalid position. Must be one of: " detail = true.
Proof.
  split; [|split].
  - apply (proj1 (create_player_details ["FW"; "CM"; "GK"; "DF"] initial
                    (PlayerBase.mk "" "XX" "" (-1)))).
    reflexivity.
  - apply (proj1 (proj2 (create_player_details ["FW"; "CM"; "GK"; "DF"] initial
                           (PlayerBase.mk "Pedri" "XX" "" 100)))).
    + reflexivity.
    + right. by right.
  - apply (proj2 (proj2 (create_player_details ["FW"; "CM"; "GK"; "DF"] initial
                           (PlayerBase.mk "Pedri" "XX" "Barcelona" 100)))).
    + reflexivity.
    + discriminate.
    + discriminate.
    + discriminate.
    + reflexivity.
Defined.

(** ** Requests that satisfy the request model *)

(** X8. A body that satisfies the constraints declared on [PlayerBase] (a
    name and a club of at least one character, one of the four positions, a
    value of zero or more) is never refused by [create_player]: neither the
    test of the handler nor those of the constructor fire, and the player
    is appended with its name and club stripped. *)
Theorem create_player_valid_body order w d :
  PlayerBase.valid d = true ->
  Main.create_player order d w
  = (mkWorld (heap w ++ [mkPlayer (Str.strip (PlayerBase.name d))
                                  (PlayerBase.position d)
                                  (Str.strip (PlayerBase.club d))
                                  (PlayerBase.value d)])
             (players w ++ [length (heap w)]),
     Return (PlayerResponse.mk (Str.strip (PlayerBase.name d))
                               (PlayerBase.position d)
                               (Str.strip (PlayerBase.club d))
                               (PlayerBase.value d))).
Proof.
  unfold PlayerBase.valid.
  intros (((Hn & Hpos)%andb_prop & Hc)%andb_prop & Hv)%andb_prop.
  apply leb_zero_not_ltb in Hv.
  apply create_player_accepts; [done|].
  destruct (Player_init_cases order (PlayerBase.name d) (PlayerBase.position d)
              (PlayerBase.club d) (PlayerBase.value d))
    as [(_ & _ & _ & _ & ->) | [H _]].
  - by rewrite (strip_valid_position _ Hpos).
  - destruct H as [E|[E|[E|E]]].
    + rewrite E in Hn. discriminate.
    + rewrite E in Hc. discriminate.
    + congruence.
    + congruence.
Qed.

Lemma create_player_valid_body_witness :
  Main.create_player VALID_POSITIONS
    (PlayerBase.mk " Pedri" "CM" "Barcelona " 100) initial
  = (mkWorld (heap initial ++ [mkPlayer "Pedri" "CM" "Barcelona" 100])
             (players initial ++ [length (heap initial)]),
     Return (PlayerResponse.mk "Pedri" "CM" "Barcelona" 100)).
Proof.
  apply (create_player_valid_body VALID_POSITIONS initial
           (PlayerBase.mk " Pedri" "CM" "Barcelona " 100)).
  reflexivity.
Defined.
(** ** Requests one after the other *)

Lemma delete_last {A} (l : list A) x : delete (length l) (l ++ [x])%list = l.
Proof. induction l as [|a l IH]; simpl; [done | by rewrite IH]. Qed.

(** X9. Creating a player and then deleting the index that was the length
    of the roster gives the roster back as it was: the deletion returns the
    record the creation returned, and the list [players] and the records
    of the roster are those from before the creation. *)
Theorem create_then_delete order w d w' r :
  well_formed w ->
  Main.create_player order d w = (w', Return r) ->
  Main.delete_player (Z.of_nat (length (players w))) w'
  = (mkWorld (heap w') (players w), Return r)
  /\ roster (mkWorld (heap w') (players w)) = roster w.
Proof.
  intros Hw Hc.
  destruct (create_player_cases order d w) as [(p & Hp & Hc')|[msg Hc']];
    rewrite Hc' in Hc; [|discriminate].
  injection Hc as <- <-.
  set (w1 := mkWorld _ _).
  assert (Hi : in_range w1 (Z.of_nat (length (players w)))).
  { unfold in_range, w1. simpl. rewrite length_app. simpl. lia. }
  assert (Hl : players w1 !! Z.to_nat (Z.of_nat (length (players w)))
               = Some (length (heap w))).
  { rewrite Nat2Z.id. unfold w1. simpl.
    rewrite lookup_app_r by lia. by rewrite Nat.sub_diag. }
  assert (Hh : heap w1 !! length (heap w) = Some p).
  { unfold w1. simpl. rewrite lookup_app_r by lia. by rewrite Nat.sub_diag. }
  rewrite (delete_player_in_range w1 _ _ p Hi Hl Hh).
  rewrite Nat2Z.id. unfold w1. simpl. rewrite delete_last.
  split; [done|].
  unfold roster. simpl. apply omap_lookup_app, Hw.
Qed.

Lemma create_then_delete_witness :
  Main.delete_player (Z.of_nat (length (players initial)))
    (mkWorld (heap initial ++ [mkPlayer "Pedri" "CM" "Barcelona" 100])
             (players initial ++ [5%nat]))
  = (mkWorld (heap initial ++ [mkPlayer "Pedri" "CM" "Barcelona" 100])
             (players initial),
     Return (PlayerResponse.mk "Pedri" "CM" "Barcelona" 100))
  /\ roster (mkWorld (heap initial ++ [mkPlayer "Pedri" "CM" "Barcelona" 100])
                     (players initial))
     = roster initial.
Proof.
  apply (create_then_delete VALID_POSITIONS initial
           (PlayerBase.mk "Pedri" "CM" "Barcelona" 100)
           (mkWorld (heap initial ++ [mkPlayer "Pedri" "CM" "Barcelona" 100])
                    (players initial ++ [5%nat]))
           (PlayerResponse.mk "Pedri" "CM" "Barcelona" 100)).
  - well_formed_by_evaluation.
  - reflexivity.
Defined.

(** X10. A transfer repeated with the same arguments changes nothing more
    and gives the same response: the second request finds the club and the
    value it is about to set, or fails as the first did. *)
Theorem transfer_player_twice w i c fee :
  well_formed w ->
  Main.transfer_player i c fee (fst (Main.transfer_player i c fee w))
  = Main.transfer_player i c fee w.
Proof.
  intros Hw. destruct (in_range_cases w i) as [Hi|Hi].
  - destruct (well_formed_entry w i Hw Hi) as (l & p & Hl & Hp).
    rewrite (transfer_player_in_range w i c fee l p Hi Hl Hp).
    destruct (setNewClub_cases c fee p) as [(Hc & Hfee & E)|[_ [msg E]]];
      rewrite E; simpl.
    + set (p' := mkPlayer _ _ _ _). set (w1 := mkWorld _ _).
      assert (Hp' : heap w1 !! l = Some p').
      { apply list_lookup_insert_eq. by eapply lookup_lt_Some. }
      rewrite (transfer_player_in_range w1 i c fee l p' Hi Hl Hp').
      rewrite setNewClub_valid by done. simpl.
      by rewrite list_insert_insert_eq.
    + rewrite entry_insert_same by done.
      rewrite (transfer_player_in_range w i c fee l p Hi Hl Hp), E. simpl.
      by rewrite entry_insert_same.
  - rewrite (transfer_player_out_of_range w i c fee Hi). simpl.
    by rewrite transfer_player_out_of_range.
Qed.

Lemma transfer_player_twice_witness :
  Main.transfer_player 1 " PSG" 90 (fst (Main.transfer_player 1 " PSG" 90 initial))
  = Main.transfer_player 1 " PSG" 90 initial.
Proof.
  apply (transfer_player_twice initial 1 " PSG" 90).
  well_formed_by_evaluation.
Defined.

(** X11. The record that a transfer or a change of value returns is the one
    that a listing made right after shows at the same index. *)
Theorem response_is_listed w i w' r :
  well_formed w ->
  (exists c fee, Main.transfer_player i c fee w = (w', Return r))
  \/ (exists amount, Main.update_player_value i amount w = (w', Return r)) ->
  exists listing,
    Main.get_players w' = (w', Return listing)
    /\ listing !! Z.to_nat i = Some r.
Proof.
  intros Hw H.
  assert (Hi : in_range w i).
  { destruct (in_range_cases w i) as [Hi|Hi]; [done|].
    destruct H as [(c & fee & H)|(a & H)].
    - rewrite transfer_player_out_of_range in H by done. discriminate.
    - rewrite update_player_value_out_of_range in H by done. discriminate. }
  destruct (well_formed_entry w i Hw Hi) as (l & p & Hl & Hp).
  assert (exists p', w' = mkWorld (<[l := p']> (heap w)) (players w)
                     /\ r = dict_of p') as (p' & -> & ->).
  { destruct H as [(c & fee & H)|(a & H)].
    - rewrite (transfer_player_in_range w i c fee l p Hi Hl Hp) in H.
      destruct (Models.setNewClub c fee p) as [p' [x|e]]; simpl in H;
        [|discriminate].
      injection H as <- <-. eauto.
    - rewrite (update_player_value_in_range w i a l p Hi Hl Hp) in H.
      destruct (Models.inOrDecrisePlayerValue a p) as [p' [x|e]]; simpl in H;
        [|discriminate].
      injection H as <- <-. eauto. }
  set (w1 := mkWorld _ _).
  assert (Hw1 : well_formed w1) by (by apply well_formed_insert).
  exists (dict_of <$> roster w1). split; [by apply get_players_spec|].
  rewrite list_lookup_fmap, roster_lookup by done.
  unfold w1. by rewrite (entry_insert_eq w _ l p p' Hl Hp).
Qed.

Lemma response_is_listed_witness :
  exists listing,
    Main.get_players (fst (Main.update_player_value 3 (-50) initial))
    = (fst (Main.update_player_value 3 (-50) initial), Return listing)
    /\ listing !! Z.to_nat 3
       = Some (PlayerResponse.mk "Vinicius Jr" "FW" "Real Madrid" 100).
Proof.
  apply (response_is_listed initial 3
           (fst (Main.update_player_value 3 (-50) initial))
           (PlayerResponse.mk "Vinicius Jr" "FW" "Real Madrid" 100)).
  - well_formed_by_evaluation.
  - right. exists (-50)%float. reflexivity.
Defined.

(** ** The terminal program *)

(** X12. The terminal program removes a player with [players.pop] and no
    test of the index: an index from minus the length up to -1 removes the
    player that far from the end, where [delete_player] of the HTTP service
    answers 404 and removes nothing; an index outside both ranges raises
    [IndexError] and leaves the list as it was, with the message "pop from
    empty list" when the list is empty and "pop index out of range"
    otherwise. *)
Theorem terminal_remove w i :
  ((- Z.of_nat (length (players w)) <= i < 0)%Z ->
   TerminalMenu.option_4 i w
   = (mkWorld (heap w)
              (delete (Z.to_nat (i + Z.of_nat (length (players w)))) (players w)),
      Return tt)
   /\ Main.delete_player i w
      = (w, Raise (HTTPException 404 "Player not found")))
  /\ ((i < - Z.of_nat (length (players w))
       \/ Z.of_nat (length (players w)) <= i)%Z ->
      TerminalMenu.option_4 i w
      = (w, Raise (IndexError (if decide (players w = [])
                               then "pop from empty list"
                               else "pop index out of range")))).
Proof.
  split.
  - intros Hi. split.
    + destruct (lookup_lt_is_Some_2 (players w)
                  (Z.to_nat (i + Z.of_nat (length (players w)))))
        as [l Hl]; [lia|].
      unfold TerminalMenu.option_4, bind.
      by rewrite (players_pop_ok w i _ l (py_index_negative _ _ Hi) Hl).
    + apply delete_player_out_of_range. unfold in_range. lia.
  - intros Hi. unfold TerminalMenu.option_4, bind, players_pop.
    rewrite (py_index_outside _ _ Hi).
    destruct (players w) as [|l0 ls]; [done|].
    by rewrite decide_False.
Qed.

Lemma terminal_remove_witness :
  (TerminalMenu.option_4 (-1) initial
   = (mkWorld (heap initial) [0; 1; 2; 3]%nat, Return tt)
   /\ Main.delete_player (-1) initial
      = (initial, Raise (HTTPException 404 "Player not found")))
  /\ TerminalMenu.option_4 5 initial
     = (initial, Raise (IndexError "pop index out of range"))
  /\ TerminalMenu.option_4 0 (mkWorld [haaland 180] [])
     = (mkWorld [haaland 180] [], Raise (IndexError "pop from empty list")).
Proof.
  split; [|split].
  - apply (proj1 (terminal_remove initial (-1))). simpl. lia.
  - apply (proj2 (terminal_remove initial 5)). right. simpl. lia.
  - apply (proj2 (terminal_remove (mkWorld [haaland 180] []) 0)). right. simpl. lia.
Defined.

(** A float is its own absolute value when it is above zero. *)
Lemma abs_pos_eq (x : PrimFloat.float) :
  (0 <? x)%float = true -> PrimFloat.abs x = x.
Proof.
  intros H. rewrite <- (SF2Prim_Prim2SF (PrimFloat.abs x)), abs_spec.
  rewrite <- (SF2Prim_Prim2SF x) at 2. f_equal.
  rewrite ltb_spec in H.
  destruct (Prim2SF x) as [s|s| |s m e]; try destruct s; try done;
    cbv in H; congruence.
Qed.

(** X13. The terminal program transfers without any test: on every index
    that a Python list accepts, a negative one included, the player at that
    position gets the club as typed, not stripped and possibly blank, and
    the absolute value of the fee, possibly given negative; name and
    position stay. It leaves the store that [transfer_player] of the HTTP
    service leaves when the index is in the range of the service, the club
    is not blank and has no white space at either end, and the fee is zero
    or more and is its own absolute value, which leaves out only the
    negative zero. *)
Theorem terminal_transfer w i n l p c fee :
  py_index (length (players w)) i = Some n ->
  players w !! n = Some l -> heap w !! l = Some p ->
  TerminalMenu.option_2 i c fee w
  = (mkWorld (<[l := mkPlayer (name p) (position p) c (PrimFloat.abs fee)]>
                (heap w))
             (players w),
     Return tt)
  /\ (in_range w i -> Str.blank c = false -> Str.strip c = c ->
      (0 <=? fee)%float = true -> PrimFloat.abs fee = fee ->
      fst (TerminalMenu.option_2 i c fee w)
      = fst (Main.transfer_player i c fee w)).
Proof.
  intros Hn Hl Hp.
  assert (E : TerminalMenu.option_2 i c fee w
              = (mkWorld (<[l := mkPlayer (name p) (position p) c
                                          (PrimFloat.abs fee)]>
                            (heap w)) (players w), Return tt)).
  { unfold TerminalMenu.option_2, bind, players_getitem.
    rewrite Hn. simpl. rewrite Hl.
    by rewrite (call_ok _ w l p Hp). }
  split; [exact E|].
  intros Hi Hc Hs Hfee Habs. rewrite E. simpl.
  rewrite (py_index_in_range _ _ Hi) in Hn. injection Hn as <-.
  rewrite (transfer_player_in_range w i c fee l p Hi Hl Hp).
  rewrite setNewClub_valid by (done || by apply leb_zero_not_ltb). simpl.
  by rewrite Hs, Habs.
Qed.

Lemma terminal_transfer_witness :
  TerminalMenu.option_2 (-1) " " (-40) (single (haaland 180))
  = (single (mkPlayer "Erling Haaland" "FW" " " 40), Return tt)
  /\ fst (TerminalMenu.option_2 0 "PSG" 40 (single (haaland 180)))
     = fst (Main.transfer_player 0 "PSG" 40 (single (haaland 180))).
Proof.
  split.
  - apply (proj1 (terminal_transfer (single (haaland 180)) (-1) 0 0 (haaland 180)
                    " " (-40) eq_refl eq_refl eq_refl)).
  - apply (proj2 (terminal_transfer (single (haaland 180)) 0 0 0 (haaland 180)
                    "PSG" 40 eq_refl eq_refl eq_refl)).
    + split; simpl; lia.
    + reflexivity.
    + reflexivity.
    + reflexivity.
    + reflexivity.
Defined.

(** On the negative zero the two differ in the sign of the stored zero. *)
Example terminal_transfer_negative_zero :
  fst (TerminalMenu.option_2 0 "PSG" (-0) (single (haaland 180)))
  = single (mkPlayer "Erling Haaland" "FW" "PSG" 0)
  /\ fst (Main.transfer_player 0 "PSG" (-0) (single (haaland 180)))
     = single (mkPlayer "Erling Haaland" "FW" "PSG" (-0)).
Proof. split; reflexivity. Qed.

(** X14. [inOrDecrisePlayerValue] of the backend never raises: its [except]
    clause is not reached, it returns the new value, and it leaves the player
    that the method of the terminal program leaves. *)
Theorem inOrDecrisePlayerValue_variants amount p :
  snd (Models.inOrDecrisePlayerValue amount p)
  = Return (value (fst (Models.inOrDecrisePlayerValue amount p)))
  /\ fst (Models.inOrDecrisePlayerValue amount p)
     = fst (Terminal.inOrDecrisePlayerValue amount p).
Proof.
  unfold Terminal.inOrDecrisePlayerValue.
  destruct (amount <? 0)%float eqn:H.
  - by rewrite inOrDecrisePlayerValue_neg.
  - by rewrite inOrDecrisePlayerValue_not_neg.
Qed.

(** ** What a request can do to the list *)

(** X15. In a well-formed store, listing, transferring and changing a value
    leave the list [players] exactly as it is, whatever their outcome;
    creating leaves it or adds one address at the end; deleting leaves it
    or takes one address out. *)
Theorem handle_players order w r :
  well_formed w ->
  match r with
  | GetPlayers | TransferPlayer _ _ _ | UpdatePlayerValue _ _ =>
      players (handle order r w) = players w
  | CreatePlayer _ =>
      players (handle order r w) = players w
      \/ players (handle order r w) = (players w ++ [length (heap w)])%list
  | DeletePlayer i =>
      players (handle order r w) = players w
      \/ players (handle order r w) = delete (Z.to_nat i) (players w)
  end.
Proof.
  intros Hw. destruct r as [|d|i c m|i a|i]; simpl.
  - by rewrite get_players_spec.
  - destruct (create_player_cases order d w) as [(p & _ & ->)|[msg ->]];
      simpl; auto.
  - destruct (in_range_cases w i) as [Hi|Hi].
    + destruct (well_formed_entry w i Hw Hi) as (l & p & Hl & Hp).
      by rewrite (transfer_player_in_range w i c m l p Hi Hl Hp).
    + by rewrite transfer_player_out_of_range.
  - destruct (in_range_cases w i) as [Hi|Hi].
    + destruct (well_formed_entry w i Hw Hi) as (l & p & Hl & Hp).
      by rewrite (update_player_value_in_range w i a l p Hi Hl Hp).
    + by rewrite update_player_value_out_of_range.
  - destruct (in_range_cases w i) as [Hi|Hi].
    + destruct (well_formed_entry w i Hw Hi) as (l & p & Hl & Hp).
      rewrite (delete_player_in_range w i l p Hi Hl Hp). simpl. auto.
    + rewrite delete_player_out_of_range by done. auto.
Qed.

Lemma handle_players_witness :
  players (handle VALID_POSITIONS (TransferPlayer 2 "" (-1)) initial)
  = players initial.
Proof.
  apply (handle_players VALID_POSITIONS initial (TransferPlayer 2 "" (-1))).
  well_formed_by_evaluation.
Defined.

